(** * RTSP session manager (rtsp-service.ts): model and properties

    A shallow embedding of the [RTSPService] class: the registry
    [sessions : Map<string, StreamSession>], the session objects that the
    event handlers of a spawned ffmpeg process close over, and the
    [PassThrough] client streams the service writes to.

    JavaScript objects are shared and mutated in place, so the model keeps
    an explicit store: session objects live in [objs] and are named by their
    index (the same index names the child process they hold), client streams
    live in [streams].  Every handler of the source is a state transformer
    on that store, and the environment (the child process, the timer, the
    consumers of the client streams) is a list of events.

    Conventions.  A [Buffer] or a [Timeout] object is truthy whatever it
    holds, so [!session.initBuffer] is [initBuffer = None] and an empty
    buffer counts as set.  Console output, the copy of the init segment
    written under [tmp/] and the chunk counters that only feed the log are
    left out: no handler reads them.  The promise of [startStream] is
    represented by how the call leaves it ([StartOutcome]); the 'spawn' and
    'error' handlers settle a pending one. *)

From Stdlib Require Import ZArith Lia.
From Stdlib.Strings Require Import Byte.
From stdpp Require Import base list strings.

Local Open Scope Z_scope.

(** ** Buffers and [Buffer.indexOf] *)

Definition Buffer := list byte.

(** [Buffer.concat(chunks)]. *)
Definition Buffer_concat (chunks : list Buffer) : Buffer := concat chunks.

(** [buf.length]. *)
Definition Buffer_length (b : Buffer) : Z := Z.of_nat (length b).

Fixpoint startsWith (needle hay : Buffer) : bool :=
  match needle, hay with
  | [], _ => true
  | _ :: _, [] => false
  | a :: needle', b :: hay' => Byte.eqb a b && startsWith needle' hay'
  end.

(** [indexOfFrom needle hay i]: position of the first occurrence of [needle]
    in [hay], counted from [i]; [-1] when there is none. *)
Fixpoint indexOfFrom (needle hay : Buffer) (i : Z) : Z :=
  match hay with
  | [] => if startsWith needle [] then i else -1
  | _ :: hay' => if startsWith needle hay then i else indexOfFrom needle hay' (i + 1)
  end.

(** [combined.indexOf(value)] for a string [value], given as its bytes. *)
Definition indexOf (hay needle : Buffer) : Z := indexOfFrom needle hay 0.

(** The bytes of the strings 'ftyp', 'moov' and 'moof'. *)
Definition ftyp : Buffer := [x66; x74; x79; x70].
Definition moov : Buffer := [x6d; x6f; x6f; x76].
Definition moof : Buffer := [x6d; x6f; x6f; x66].

Definition hasFtyp (combined : Buffer) : bool := negb (indexOf combined ftyp =? -1).
Definition hasMoov (combined : Buffer) : bool := negb (indexOf combined moov =? -1).
Definition hasMoof (combined : Buffer) : bool := negb (indexOf combined moof =? -1).

(** The condition [hasFtyp || hasMoov || hasMoof] of the stdout handler. *)
Definition hasMarker (combined : Buffer) : bool :=
  hasFtyp combined || hasMoov combined || hasMoof combined.

Definition INIT_TIMEOUT_MS : Z := 3000.
Definition MAX_PREINIT_BYTES : Z := 5 * 1024 * 1024.

(** ** [Map<string, V>]: insertion-ordered, one entry per key *)

Module JsMap.
Section ops.
Context {V : Type}.

Fixpoint get (k : string) (m : list (string * V)) : option V :=
  match m with
  | [] => None
  | (k', v) :: m' => if String.eqb k k' then Some v else get k m'
  end.

Definition has (k : string) (m : list (string * V)) : bool :=
  match get k m with Some _ => true | None => false end.

(** [set] keeps the position of a key that is already present and appends
    a new one. *)
Fixpoint set (k : string) (v : V) (m : list (string * V)) : list (string * V) :=
  match m with
  | [] => [(k, v)]
  | (k', v') :: m' =>
      if String.eqb k k' then (k, v) :: m' else (k', v') :: set k v m'
  end.

Fixpoint delete (k : string) (m : list (string * V)) : list (string * V) :=
  match m with
  | [] => []
  | (k', v') :: m' =>
      if String.eqb k k' then delete k m' else (k', v') :: delete k m'
  end.

Definition values (m : list (string * V)) : list V := map snd m.
End ops.
End JsMap.

(** ** [Set<PassThrough>]: insertion-ordered, no duplicates *)

Definition Set_has (c : nat) (l : list nat) : bool := bool_decide (c ∈ l).
Definition Set_add (c : nat) (l : list nat) : list nat :=
  if Set_has c l then l else l ++ [c].
Definition Set_delete (c : nat) (l : list nat) : list nat :=
  filter (λ x, x ≠ c) l.

(** ** The objects *)

(** A client [PassThrough].  [written] is what [write] accepted, in order;
    [cleanupSession] is the session object the [cleanup] closure registered
    on 'close', 'end', 'error' and 'finish' has captured. *)
Record PassThrough := {
  destroyed : bool;
  writableEnded : bool;
  written : list Buffer;
  cleanupSession : nat;
}.

Record StreamSession := {
  id : string;
  rtspUrl : string;
  process : option nat;
  source : option nat;
  isActive : bool;
  clientCount : Z;
  clients : list nat;
  preInitChunks : list Buffer;
  preInitSize : Z;
  initBuffer : option Buffer;
  initTimer : option nat;
}.

(** What [getSessionStatus] and [getAllSessions] return per session. *)
Record SessionStatus := {
  st_id : string;
  st_isActive : bool;
  st_clientCount : Z;
  st_rtspUrl : string;
}.

(** The service: the registry, the store of session objects and of client
    streams, the processes [kill('SIGKILL')] was called on, and the events
    the service itself emitted (name, sessionId). *)
Record RTSPService := {
  sessions : list (string * nat);
  objs : list StreamSession;
  streams : list PassThrough;
  killed : list nat;
  emitted : list (string * string);
}.

Definition initial : RTSPService :=
  {| sessions := []; objs := []; streams := []; killed := []; emitted := [] |}.

(** ** Stream primitives *)

Definition new_PassThrough (p : nat) : PassThrough :=
  {| destroyed := false; writableEnded := false; written := []; cleanupSession := p |}.

(** [c.write(b)]: a stream that was ended accepts no more data. *)
Definition write (b : Buffer) (q : PassThrough) : PassThrough :=
  if writableEnded q then q
  else {| destroyed := destroyed q; writableEnded := writableEnded q;
          written := written q ++ [b]; cleanupSession := cleanupSession q |}.

(** [c.end()]. *)
Definition end_ (q : PassThrough) : PassThrough :=
  {| destroyed := destroyed q; writableEnded := true;
     written := written q; cleanupSession := cleanupSession q |}.

(** [c.destroy()], called by the consumer of the stream. *)
Definition destroy (q : PassThrough) : PassThrough :=
  {| destroyed := true; writableEnded := writableEnded q;
     written := written q; cleanupSession := cleanupSession q |}.

(** One turn of [for (const c of session.clients) if (!c.destroyed) c.write(b)]. *)
Definition writeIfLive (b : Buffer) (st : list PassThrough) (c : nat) : list PassThrough :=
  match st !! c with
  | Some q => if destroyed q then st else <[c := write b q]> st
  | None => st
  end.

Definition writeAll (b : Buffer) (cs : list nat) (st : list PassThrough) : list PassThrough :=
  foldl (writeIfLive b) st cs.

(** One turn of [for (const c of session.clients) c.end()]. *)
Definition endOne (st : list PassThrough) (c : nat) : list PassThrough :=
  match st !! c with
  | Some q => <[c := end_ q]> st
  | None => st
  end.

Definition endAll (cs : list nat) (st : list PassThrough) : list PassThrough :=
  foldl endOne st cs.

(** ** [startStream] and the handlers it installs *)

(** How a call of [startStream] leaves its promise: resolved at the
    existing-session guard, rejected in the [catch] around [spawn], or
    pending on the 'spawn' / 'error' event of the new process. *)
Inductive StartOutcome :=
  | ResolvedEarly
  | Rejected
  | Pending (p : nat).

(** [this.sessions.has(sessionId)] and [existing && existing.isActive]. *)
Definition existingActive (sessionId : string) (s : RTSPService) : bool :=
  match JsMap.get sessionId (sessions s) with
  | Some r => match objs s !! r with
              | Some existing => isActive existing
              | None => false
              end
  | None => false
  end.

(** The session literal of [startStream], for the process [p]. *)
Definition new_session (sessionId rtspUrl : string) (p : nat) : StreamSession :=
  {| id := sessionId; rtspUrl := rtspUrl; process := Some p; source := Some p;
     isActive := false; clientCount := 0; clients := [];
     preInitChunks := []; preInitSize := 0; initBuffer := None; initTimer := None |}.

(** [spawnThrows] says whether the call of [spawn] throws. *)
Definition startStream (sessionId rtspUrl : string) (spawnThrows : bool)
    (s : RTSPService) : RTSPService * StartOutcome :=
  if existingActive sessionId s then (s, ResolvedEarly)
  else if spawnThrows then (s, Rejected)
  else
    let p := length (objs s) in
    ({| sessions := JsMap.set sessionId p (sessions s);
        objs := objs s ++ [new_session sessionId rtspUrl p];
        streams := streams s; killed := killed s; emitted := emitted s |},
     Pending p).

(** [proc.on('spawn', ...)]. *)
Definition onSpawn (p : nat) (s : RTSPService) : RTSPService :=
  match objs s !! p with
  | None => s
  | Some session =>
      {| sessions := sessions s;
         objs := <[p := {| id := id session; rtspUrl := rtspUrl session;
                           process := process session; source := source session;
                           isActive := true;
                           clientCount := clientCount session; clients := clients session;
                           preInitChunks := preInitChunks session;
                           preInitSize := preInitSize session;
                           initBuffer := initBuffer session;
                           initTimer := Some p |}]> (objs s);
         streams := streams s; killed := killed s;
         emitted := emitted s ++ [("stream-started"%string, id session)] |}
  end.

(** The callback given to [setTimeout] in the 'spawn' handler. *)
Definition onInitTimeout (p : nat) (s : RTSPService) : RTSPService :=
  match objs s !! p with
  | None => s
  | Some session =>
      match initBuffer session with
      | Some _ => s
      | None =>
          match preInitChunks session with
          | _ :: _ =>
              let init := Buffer_concat (preInitChunks session) in
              {| sessions := sessions s;
                 objs := <[p := {| id := id session; rtspUrl := rtspUrl session;
                                   process := process session; source := source session;
                                   isActive := isActive session;
                                   clientCount := clientCount session;
                                   clients := clients session;
                                   preInitChunks := []; preInitSize := 0;
                                   initBuffer := Some init;
                                   initTimer := None |}]> (objs s);
                 streams := writeAll init (clients session) (streams s);
                 killed := killed s; emitted := emitted s |}
          | [] =>
              {| sessions := sessions s;
                 objs := <[p := {| id := id session; rtspUrl := rtspUrl session;
                                   process := process session; source := source session;
                                   isActive := isActive session;
                                   clientCount := clientCount session;
                                   clients := clients session;
                                   preInitChunks := preInitChunks session;
                                   preInitSize := preInitSize session;
                                   initBuffer := None;
                                   initTimer := None |}]> (objs s);
                 streams := streams s; killed := killed s; emitted := emitted s |}
          end
      end
  end.

(** [proc.on('error', ...)]. *)
Definition onError (p : nat) (s : RTSPService) : RTSPService :=
  match objs s !! p with
  | None => s
  | Some session =>
      {| sessions := sessions s;
         objs := <[p := {| id := id session; rtspUrl := rtspUrl session;
                           process := process session; source := source session;
                           isActive := false;
                           clientCount := clientCount session; clients := clients session;
                           preInitChunks := preInitChunks session;
                           preInitSize := preInitSize session;
                           initBuffer := initBuffer session;
                           initTimer := initTimer session |}]> (objs s);
         streams := streams s; killed := killed s;
         emitted := emitted s ++ [("stream-error"%string, id session)] |}
  end.

(** [proc.on('close', ...)]; the handler reads neither [code] nor [signal]. *)
Definition onClose (p : nat) (s : RTSPService) : RTSPService :=
  match objs s !! p with
  | None => s
  | Some session =>
      {| sessions := JsMap.delete (id session) (sessions s);
         objs := <[p := {| id := id session; rtspUrl := rtspUrl session;
                           process := process session; source := source session;
                           isActive := false;
                           clientCount := clientCount session; clients := [];
                           preInitChunks := preInitChunks session;
                           preInitSize := preInitSize session;
                           initBuffer := initBuffer session;
                           initTimer := None |}]> (objs s);
         streams := endAll (clients session) (streams s);
         killed := killed s;
         emitted := emitted s ++ [("stream-ended"%string, id session)] |}
  end.

(** [proc.stdout.on('data', ...)]. *)
Definition onData (p : nat) (chunk : Buffer) (s : RTSPService) : RTSPService :=
  match objs s !! p with
  | None => s
  | Some session =>
      match initBuffer session with
      | None =>
          let chunks := preInitChunks session ++ [chunk] in
          let size := preInitSize session + Buffer_length chunk in
          if MAX_PREINIT_BYTES <? size then
            let init := Buffer_concat chunks in
            {| sessions := sessions s;
               objs := <[p := {| id := id session; rtspUrl := rtspUrl session;
                                 process := process session; source := source session;
                                 isActive := isActive session;
                                 clientCount := clientCount session;
                                 clients := clients session;
                                 preInitChunks := []; preInitSize := 0;
                                 initBuffer := Some init;
                                 initTimer := None |}]> (objs s);
               streams := writeAll init (clients session) (streams s);
               killed := killed s; emitted := emitted s |}
          else
            let combined := Buffer_concat chunks in
            if hasFtyp combined || hasMoov combined || hasMoof combined then
              {| sessions := sessions s;
                 objs := <[p := {| id := id session; rtspUrl := rtspUrl session;
                                   process := process session; source := source session;
                                   isActive := isActive session;
                                   clientCount := clientCount session;
                                   clients := clients session;
                                   preInitChunks := []; preInitSize := 0;
                                   initBuffer := Some combined;
                                   initTimer := None |}]> (objs s);
                 streams := writeAll combined (clients session) (streams s);
                 killed := killed s; emitted := emitted s |}
            else
              {| sessions := sessions s;
                 objs := <[p := {| id := id session; rtspUrl := rtspUrl session;
                                   process := process session; source := source session;
                                   isActive := isActive session;
                                   clientCount := clientCount session;
                                   clients := clients session;
                                   preInitChunks := chunks; preInitSize := size;
                                   initBuffer := None;
                                   initTimer := initTimer session |}]> (objs s);
                 streams := streams s; killed := killed s; emitted := emitted s |}
      | Some _ =>
          {| sessions := sessions s; objs := objs s;
             streams := writeAll chunk (clients session) (streams s);
             killed := killed s; emitted := emitted s |}
      end
  end.

(** ** [getStreamData] and the [cleanup] closure *)

Definition getStreamData (sessionId : string) (s : RTSPService)
    : RTSPService * option nat :=
  match JsMap.get sessionId (sessions s) with
  | None => (s, None)
  | Some p =>
      match objs s !! p with
      | None => (s, None)
      | Some session =>
          match source session with
          | None => (s, None)
          | Some _ =>
              if negb (isActive session) then (s, None)
              else
                let client := length (streams s) in
                let fresh := new_PassThrough p in
                ({| sessions := sessions s;
                    objs := <[p := {| id := id session; rtspUrl := rtspUrl session;
                                      process := process session;
                                      source := source session;
                                      isActive := isActive session;
                                      clientCount := clientCount session + 1;
                                      clients := Set_add client (clients session);
                                      preInitChunks := preInitChunks session;
                                      preInitSize := preInitSize session;
                                      initBuffer := initBuffer session;
                                      initTimer := initTimer session |}]> (objs s);
                    streams := streams s ++
                      [match initBuffer session with
                       | Some init => write init fresh
                       | None => fresh
                       end];
                    killed := killed s; emitted := emitted s |},
                 Some client)
          end
      end
  end.

(** The [cleanup] closure of the client stream [client]. *)
Definition cleanup (client : nat) (s : RTSPService) : RTSPService :=
  match streams s !! client with
  | None => s
  | Some q =>
      let p := cleanupSession q in
      match objs s !! p with
      | None => s
      | Some session =>
          {| sessions := sessions s;
             objs := <[p := {| id := id session; rtspUrl := rtspUrl session;
                               process := process session; source := source session;
                               isActive := isActive session;
                               clientCount := Z.max 0 (clientCount session - 1);
                               clients := if Set_has client (clients session)
                                          then Set_delete client (clients session)
                                          else clients session;
                               preInitChunks := preInitChunks session;
                               preInitSize := preInitSize session;
                               initBuffer := initBuffer session;
                               initTimer := initTimer session |}]> (objs s);
             streams := streams s; killed := killed s; emitted := emitted s |}
      end
  end.

(** ** [stopStream] and the read-only entry points *)

Definition stopStream (sessionId : string) (s : RTSPService) : RTSPService :=
  match JsMap.get sessionId (sessions s) with
  | None => s
  | Some p =>
      match objs s !! p with
      | None => s
      | Some session =>
          match process session with
          | None => s
          | Some proc =>
              {| sessions := JsMap.delete sessionId (sessions s);
                 objs := <[p := {| id := id session; rtspUrl := rtspUrl session;
                                   process := process session; source := source session;
                                   isActive := false;
                                   clientCount := clientCount session; clients := [];
                                   preInitChunks := preInitChunks session;
                                   preInitSize := preInitSize session;
                                   initBuffer := initBuffer session;
                                   initTimer := None |}]> (objs s);
                 streams := endAll (clients session) (streams s);
                 killed := killed s ++ [proc];
                 emitted := emitted s ++ [("stream-stopped"%string, sessionId)] |}
          end
      end
  end.

Definition session_of (sessionId : string) (s : RTSPService) : option StreamSession :=
  match JsMap.get sessionId (sessions s) with
  | Some p => objs s !! p
  | None => None
  end.

Definition getInitSegment (sessionId : string) (s : RTSPService) : option Buffer :=
  match session_of sessionId s with
  | Some session => initBuffer session
  | None => None
  end.

Definition status_of (session : StreamSession) : SessionStatus :=
  {| st_id := id session; st_isActive := isActive session;
     st_clientCount := clientCount session; st_rtspUrl := rtspUrl session |}.

Definition getSessionStatus (sessionId : string) (s : RTSPService) : option SessionStatus :=
  match session_of sessionId s with
  | Some session => Some (status_of session)
  | None => None
  end.

Definition getAllSessions (s : RTSPService) : list SessionStatus :=
  omap (λ p, status_of <$> objs s !! p) (JsMap.values (sessions s)).

(** ** Events and runs *)

(** The environment is not constrained: any event may come at any time and
    any number of times (a timer callback after [clearTimeout], a chunk
    before 'spawn', several events of one stream), so what holds for every
    run holds in particular for the runs Node produces. *)

(** The four stream events [cleanup] is registered on. *)
Inductive StreamEvent := EvClose | EvEnd | EvError | EvFinish.

Inductive Event :=
  | StartStream (sessionId rtspUrl : string) (spawnThrows : bool)
  | GetStreamData (sessionId : string)
  | StopStream (sessionId : string)
  | ProcSpawn (p : nat)
  | ProcError (p : nat)
  | ProcClose (p : nat)
  | ProcStdout (p : nat) (chunk : Buffer)
  | InitTimeout (p : nat)
  | ClientEmit (client : nat) (ev : StreamEvent)
  | ClientDestroy (client : nat).

(** One event: the entry point called, or the handler the event runs. *)
Definition step (s : RTSPService) (e : Event) : RTSPService :=
  match e with
  | StartStream sessionId rtspUrl spawnThrows =>
      fst (startStream sessionId rtspUrl spawnThrows s)
  | GetStreamData sessionId => fst (getStreamData sessionId s)
  | StopStream sessionId => stopStream sessionId s
  | ProcSpawn p => onSpawn p s
  | ProcError p => onError p s
  | ProcClose p => onClose p s
  | ProcStdout p chunk => onData p chunk s
  | InitTimeout p => onInitTimeout p s
  | ClientEmit client _ => cleanup client s
  | ClientDestroy client =>
      match streams s !! client with
      | Some q =>
          {| sessions := sessions s; objs := objs s;
             streams := <[client := destroy q]> (streams s);
             killed := killed s; emitted := emitted s |}
      | None => s
      end
  end.

Definition run (s : RTSPService) (evs : list Event) : RTSPService :=
  foldl step s evs.

(** The states of a service that started empty. *)
Definition reachable (s : RTSPService) : Prop :=
  ∃ evs, s = run initial evs.

(** The chunks the process [p] wrote to stdout during [evs]. *)
Fixpoint chunksOf (p : nat) (evs : list Event) : list Buffer :=
  match evs with
  | [] => []
  | ProcStdout q chunk :: evs' =>
      if decide (q = p) then chunk :: chunksOf p evs' else chunksOf p evs'
  | _ :: evs' => chunksOf p evs'
  end.

(** ** Predicates and scenarios of the statements *)

(** [live q]: the stream takes what is written to it. *)
Definition live (q : PassThrough) : bool :=
  negb (destroyed q) && negb (writableEnded q).

(** Who wrote [b] to a client of the session [sess] (the object [p]) during
    the event [e]: either the event resolved [initBuffer] to [b], or the
    session was resolved before and [b] is the chunk relayed. *)
Definition wrote (s : RTSPService) (e : Event) (p : nat) (sess : StreamSession)
    (b : Buffer) : Prop :=
  (initBuffer sess = None ∧
   ∃ sess', objs (step s e) !! p = Some sess' ∧ initBuffer sess' = Some b) ∨
  (is_Some (initBuffer sess) ∧ e = ProcStdout p b).

(** What every reachable state satisfies.  The clients of a session are
    streams whose [cleanup] closure captured that session; what a stream
    received starts with the [initBuffer] of its session; a client still
    able to receive has received it as soon as the session is resolved; the
    client set has no duplicates; [preInitSize] is the size of what is
    buffered; registry keys are the identifiers of the objects they name;
    every object holds its own process. *)
Record wf (s : RTSPService) : Prop := {
  wf_owner : ∀ p sess c,
    objs s !! p = Some sess → c ∈ clients sess →
    ∃ q, streams s !! c = Some q ∧ cleanupSession q = p;
  wf_owner_exists : ∀ c q,
    streams s !! c = Some q → is_Some (objs s !! cleanupSession q);
  wf_first : ∀ c q sess b rest,
    streams s !! c = Some q → objs s !! cleanupSession q = Some sess →
    written q = b :: rest → initBuffer sess = Some b;
  wf_served : ∀ p sess c q b,
    objs s !! p = Some sess → c ∈ clients sess → streams s !! c = Some q →
    initBuffer sess = Some b → written q = [] → live q = false;
  wf_nodup : ∀ p sess, objs s !! p = Some sess → NoDup (clients sess);
  wf_size : ∀ p sess,
    objs s !! p = Some sess →
    preInitSize sess = Buffer_length (Buffer_concat (preInitChunks sess));
  wf_process : ∀ p sess,
    objs s !! p = Some sess → process sess = Some p ∧ source sess = Some p;
  wf_registry : ∀ k p,
    (k, p) ∈ sessions s → ∃ sess, objs s !! p = Some sess ∧ id sess = k;
}.

(** [n] copies of the byte [b]. *)
Definition Z_repeat (b : byte) (n : Z) : Buffer := replicate (Z.to_nat n) b.

Definition cam : string := "cam".
Definition cam_url : string := "rtsp://192.168.1.10:554/stream1".

(** A session whose process is spawned, gets a client and writes nothing
    until the timer fires. *)
Definition silent_run : list Event :=
  [StartStream cam cam_url false; ProcSpawn 0; GetStreamData cam; InitTimeout 0].

(** The state [silent_run] ends in, as events on the session once created. *)
Definition silent_state : RTSPService :=
  run (fst (startStream cam cam_url false initial))
    [ProcSpawn 0; GetStreamData cam; InitTimeout 0].

(** One chunk of exactly [MAX_PREINIT_BYTES] zero bytes, and one byte more. *)
Definition ceiling_chunk : Buffer := Z_repeat x00 MAX_PREINIT_BYTES.
Definition over_ceiling_chunk : Buffer := Z_repeat x00 (MAX_PREINIT_BYTES + 1).

Definition ceiling_run : list Event :=
  [StartStream cam cam_url false; ProcSpawn 0; GetStreamData cam;
   ProcStdout 0 ceiling_chunk].

(** Scenario A: three chunks, the second of 30 bytes with 'moov' at offset
    10. *)
Definition chunk1 : Buffer := Z_repeat x01 10.
Definition chunk2 : Buffer := Z_repeat x02 10 ++ moov ++ Z_repeat x03 16.
Definition chunk3 : Buffer := Z_repeat x04 20.

(** The session [cam] with one client, after a first chunk without marker. *)
Definition buffering_session : StreamSession :=
  {| id := cam; rtspUrl := cam_url; process := Some 0%nat;
     source := Some 0%nat; isActive := true; clientCount := 1;
     clients := [0%nat]; preInitChunks := [chunk1];
     preInitSize := 10; initBuffer := None; initTimer := Some 0%nat |}.

(** The session [cam], resolved by the marker in [chunk2], with one client. *)
Definition streaming_run : list Event :=
  [StartStream cam cam_url false; ProcSpawn 0; GetStreamData cam;
   ProcStdout 0 chunk1; ProcStdout 0 chunk2].

Definition streaming_session : StreamSession :=
  {| id := cam; rtspUrl := cam_url; process := Some 0%nat;
     source := Some 0%nat; isActive := true; clientCount := 1;
     clients := [0%nat]; preInitChunks := [];
     preInitSize := 0; initBuffer := Some (chunk1 ++ chunk2); initTimer := None |}.

(** Two clients attach to [cam]; the first one emits 'error' and then
    'close', as a stream destroyed with an error does. *)
Definition double_emit_run : list Event :=
  [StartStream cam cam_url false; ProcSpawn 0; GetStreamData cam; GetStreamData cam;
   ClientEmit 0 EvError; ClientEmit 0 EvClose].

(** ** Further predicates *)

(** [e] is output of the process [p]: a chunk on its stdout, or the
    callback of the timer set for it. *)
Definition isProcessOutput (p : nat) (e : Event) : bool :=
  match e with
  | ProcStdout q _ | InitTimeout q => bool_decide (q = p)
  | _ => false
  end.

(** The stream [client] is in the [clients] set of no session. *)
Definition unattached (client : nat) (s : RTSPService) : Prop :=
  ∀ p sess, objs s !! p = Some sess → client ∉ clients sess.

(** [delivered s p c every]: the client [c] of the session object [p] is
    live and, of the chunks [every] the process has written, it holds
    nothing while the session buffers them and the same bytes, behind the
    [initBuffer], once the session is resolved. *)
Definition delivered (s : RTSPService) (p c : nat) (every : list Buffer) : Prop :=
  ∃ sess q,
    objs s !! p = Some sess ∧ c ∈ clients sess ∧ NoDup (clients sess) ∧
    streams s !! c = Some q ∧ live q = true ∧
    match initBuffer sess with
    | None => written q = [] ∧ preInitChunks sess = every
    | Some init =>
        head (written q) = Some init ∧
        Buffer_concat (written q) = Buffer_concat every
    end.

(** [e] is an event of the process [p] or of its timer. *)
Definition isProcessEvent (p : nat) (e : Event) : bool :=
  match e with
  | ProcSpawn q | ProcError q | ProcClose q | ProcStdout q _ | InitTimeout q =>
      bool_decide (q = p)
  | _ => false
  end.

(** Two sessions, [cam] and [door], each with a spawned process; [door] has
    one client. *)
Definition two_sessions_run : list Event :=
  [StartStream cam cam_url false; ProcSpawn 0;
   StartStream "door" "rtsp://door/1" false; ProcSpawn 1; GetStreamData "door"].

(** ** The idle check of the server (server/index.ts) *)

(** The callback [maybeStopSessionIfIdle] hands to [setTimeout]. *)
Definition maybeStopSessionIfIdle (sessionId : string) (s : RTSPService) : RTSPService :=
  match getSessionStatus sessionId s with
  | None => s
  | Some status =>
      if st_isActive status && (st_clientCount status =? 0)
      then stopStream sessionId s
      else s
  end.

(** ** The stream bookkeeping of the server (server/index.ts) *)

(** [`${sessionId}-${socket.id}`]. *)
Definition streamKey (sessionId socketId : string) : string :=
  sessionId +:+ "-" +:+ socketId.

(** [key.startsWith(x)]. *)
Definition String_startsWith (x key : string) : bool := String.prefix x key.

(** [key.includes(x)]. *)
Fixpoint String_includes (x key : string) : bool :=
  match key with
  | EmptyString => String.prefix x EmptyString
  | String _ key' => String.prefix x key || String_includes x key'
  end.

(** [s.slice(start, end)]: a negative index counts from the end, and both
    are clamped to the string. *)
Definition String_slice (s : string) (start end_ : Z) : string :=
  let len := Z.of_nat (String.length s) in
  let from := if start <? 0 then Z.max (len + start) 0 else Z.min start len in
  let to := if end_ <? 0 then Z.max (len + end_) 0 else Z.min end_ len in
  String.substring (Z.to_nat from) (Z.to_nat (to - from)) s.

(** [key.slice(0, -socket.id.length - 1)] of the 'disconnect' handler. *)
Definition sessionIdOfKey (key socketId : string) : string :=
  String_slice key 0 (- Z.of_nat (String.length socketId) - 1).

(** [Set<string>.add]. *)
Definition StringSet_add (x : string) (l : list string) : list string :=
  if bool_decide (x ∈ l) then l else l ++ [x].

(** What the server emits to a socket, 'stream:data' apart. *)
Inductive SocketMsg :=
  | StreamError (error : string)
  | StreamInit (init : Buffer)
  | StreamReady (sessionId : string)
  | StreamEnd (sessionId : string).

(** The server: the service, [activeStreams : Map<string, Readable>], the
    'stream:unwatch' listeners registered on the sockets, each with the
    [streamKey] and [sessionId] of its closure, the idle checks
    [maybeStopSessionIfIdle] has scheduled, and what was emitted to the
    sockets (socket id, message).  The listeners a watch registers on the
    stream itself ('data', 'error', 'end') are not part of the model. *)
Record Server := {
  rtspService : RTSPService;
  activeStreams : list (string * nat);
  unwatchListeners : list (string * (string * string));
  idleChecks : list string;
  sent : list (string * SocketMsg);
}.

(** [stream.destroy()] on a stream of the store. *)
Definition destroyStream (svc : RTSPService) (c : nat) : RTSPService :=
  step svc (ClientDestroy c).

(** [socket.on('stream:watch', ...)]. *)
Definition onWatch (socketId sessionId : string) (sv : Server) : Server :=
  let reject error :=
    {| rtspService := rtspService sv; activeStreams := activeStreams sv;
       unwatchListeners := unwatchListeners sv; idleChecks := idleChecks sv;
       sent := sent sv ++ [(socketId, StreamError error)] |} in
  match getSessionStatus sessionId (rtspService sv) with
  | None => reject "Stream not found or not active"%string
  | Some sessionStatus =>
      if negb (st_isActive sessionStatus)
      then reject "Stream not found or not active"%string
      else
        let key := streamKey sessionId socketId in
        if JsMap.has key (activeStreams sv)
        then reject "Already watching this stream"%string
        else
          match getStreamData sessionId (rtspService sv) with
          | (_, None) => reject "Failed to get stream"%string
          | (svc, Some stream) =>
              {| rtspService := svc;
                 activeStreams := JsMap.set key stream (activeStreams sv);
                 unwatchListeners :=
                   unwatchListeners sv ++ [(socketId, (key, sessionId))];
                 idleChecks := idleChecks sv;
                 sent := sent sv ++
                   match getInitSegment sessionId svc with
                   | Some init => [(socketId, StreamInit init)]
                   | None => []
                   end ++ [(socketId, StreamReady sessionId)] |}
          end
  end.

(** One 'stream:unwatch' listener, with the [streamKey] and [sessionId] of
    its closure. *)
Definition unwatchOne (socketId : string) (sv : Server) (closure : string * string)
    : Server :=
  let '(key, sessionId) := closure in
  {| rtspService :=
       match JsMap.get key (activeStreams sv) with
       | Some stream => destroyStream (rtspService sv) stream
       | None => rtspService sv
       end;
     activeStreams :=
       if JsMap.has key (activeStreams sv)
       then JsMap.delete key (activeStreams sv)
       else activeStreams sv;
     unwatchListeners :=
       filter (λ l, l.1 ≠ socketId) (unwatchListeners sv);
     idleChecks := idleChecks sv ++ [sessionId];
     sent := sent sv |}.

(** The event 'stream:unwatch' on a socket: every listener registered on
    the socket when the event is emitted runs, in the order registered. *)
Definition onUnwatch (socketId : string) (sv : Server) : Server :=
  foldl (unwatchOne socketId) sv
    (snd <$> filter (λ l, l.1 = socketId) (unwatchListeners sv)).

(** [socket.on('disconnect', ...)]. *)
Definition onDisconnect (socketId : string) (sv : Server) : Server :=
  let hits :=
    filter (λ kc, String_includes socketId kc.1 = true) (activeStreams sv) in
  let keysToDelete := hits.*1 in
  let affectedSessionIds :=
    foldl (λ acc key, StringSet_add (sessionIdOfKey key socketId) acc) [] keysToDelete in
  {| rtspService := foldl destroyStream (rtspService sv) hits.*2;
     activeStreams := foldl (λ m key, JsMap.delete key m) (activeStreams sv) keysToDelete;
     unwatchListeners := unwatchListeners sv;
     idleChecks := idleChecks sv ++ affectedSessionIds;
     sent := sent sv |}.

(** [app.post('/api/stream/stop/:sessionId', ...)]. *)
Definition apiStop (sessionId : string) (sv : Server) : Server :=
  let hits :=
    filter (λ kc, String_startsWith (sessionId +:+ "-") kc.1 = true) (activeStreams sv) in
  {| rtspService := foldl destroyStream (stopStream sessionId (rtspService sv)) hits.*2;
     activeStreams := foldl (λ m key, JsMap.delete key m) (activeStreams sv) hits.*1;
     unwatchListeners := unwatchListeners sv;
     idleChecks := idleChecks sv;
     sent := sent sv |}.

(** A server that has filed no stream yet, around a service. *)
Definition server_of (svc : RTSPService) : Server :=
  {| rtspService := svc; activeStreams := []; unwatchListeners := [];
     idleChecks := []; sent := [] |}.

(** The socket [sockA] watches [cam], resolved by [chunk2], and [door]. *)
Definition watching_server : Server :=
  onWatch "sockA" "door"
    (onWatch "sockA" cam
       (server_of (run initial [StartStream cam cam_url false; ProcSpawn 0;
                                ProcStdout 0 chunk2;
                                StartStream "door" "rtsp://door/1" false; ProcSpawn 1]))).

(** * Properties *)

(** ** The registry map *)

Section JsMap_facts.
Context {V : Type}.
Implicit Types (m : list (string * V)) (k : string).

Lemma JsMap_get_set_eq k v m : JsMap.get k (JsMap.set k v m) = Some v.
Proof.
  induction m as [|[k' v'] m IH]; simpl.
  - by rewrite String.eqb_refl.
  - destruct (String.eqb k k') eqn:E; simpl.
    + by rewrite String.eqb_refl.
    + by rewrite E.
Qed.

Lemma JsMap_get_set_ne k k' v m :
  k ≠ k' → JsMap.get k' (JsMap.set k v m) = JsMap.get k' m.
Proof.
  intros Hne. induction m as [|[k0 v0] m IH]; simpl.
  - destruct (String.eqb k' k) eqn:E; [|done].
    apply String.eqb_eq in E. congruence.
  - destruct (String.eqb k k0) eqn:E; simpl.
    + apply String.eqb_eq in E. subst k0.
      destruct (String.eqb k' k) eqn:E'; [|done].
      apply String.eqb_eq in E'. congruence.
    + by rewrite IH.
Qed.

Lemma JsMap_get_delete_eq k m : JsMap.get k (JsMap.delete k m) = None.
Proof.
  induction m as [|[k' v'] m IH]; simpl; [done|].
  destruct (String.eqb k k') eqn:E; simpl; [done|]. by rewrite E.
Qed.

Lemma JsMap_elem_of_delete k k' v m :
  (k', v) ∈ JsMap.delete k m → k' ≠ k ∧ (k', v) ∈ m.
Proof.
  induction m as [|[k0 v0] m IH]; simpl.
  - by intros ?%elem_of_nil.
  - rewrite elem_of_cons. destruct (String.eqb k k0) eqn:E.
    + naive_solver.
    + apply String.eqb_neq in E. rewrite elem_of_cons.
      intros [Heq|Hin]; [|naive_solver].
      injection Heq as -> ->. split; [congruence|by left].
Qed.

Lemma JsMap_elem_of_set k k' v v' m :
  (k', v') ∈ JsMap.set k v m → (k' = k ∧ v' = v) ∨ (k', v') ∈ m.
Proof.
  induction m as [|[k0 v0] m IH]; simpl.
  - intros Heq%list_elem_of_singleton. injection Heq as -> ->. by left.
  - rewrite (elem_of_cons m). destruct (String.eqb k k0) eqn:E.
    + rewrite elem_of_cons. intros [Heq|Hin]; [|by auto].
      injection Heq as -> ->. by left.
    + rewrite elem_of_cons. naive_solver.
Qed.

Lemma JsMap_get_elem_of k v m : JsMap.get k m = Some v → (k, v) ∈ m.
Proof.
  induction m as [|[k0 v0] m IH]; simpl; [done|].
  rewrite elem_of_cons. destruct (String.eqb k k0) eqn:E.
  - apply String.eqb_eq in E. subst k0. intros [= ->]. by left.
  - auto.
Qed.

End JsMap_facts.

(** ** Writing to and ending a set of client streams *)

Lemma writeIfLive_length b st c : length (writeIfLive b st c) = length st.
Proof.
  unfold writeIfLive. destruct (st !! c) as [q|]; [|done].
  destruct (destroyed q); [done|]. by rewrite length_insert.
Qed.

Lemma writeAll_length b cs st : length (writeAll b cs st) = length st.
Proof.
  revert st. induction cs as [|c cs IH]; intros st; simpl; [done|].
  unfold writeAll in *. simpl. by rewrite IH, writeIfLive_length.
Qed.

(** What one turn of the write loop does to the stream [c']. *)
Lemma writeIfLive_lookup b st c c' q :
  st !! c' = Some q →
  writeIfLive b st c !! c' =
    Some (if decide (c = c') then (if destroyed q then q else write b q) else q).
Proof.
  intros Hq. unfold writeIfLive. destruct (decide (c = c')) as [->|Hne].
  - rewrite Hq. destruct (destroyed q); [done|].
    apply list_lookup_insert_eq. by eapply lookup_lt_Some.
  - destruct (st !! c) as [q0|]; [|done].
    destruct (destroyed q0); [done|]. by rewrite list_lookup_insert_ne.
Qed.

(** What the whole write loop does to the stream [c]: its flags and its
    cleanup closure are untouched, and [b] is appended [k] times, where [k]
    is positive exactly when [c] is one of the clients and is live, and at
    most one when the clients are pairwise distinct. *)
Lemma writeAll_lookup b cs st c q :
  st !! c = Some q →
  ∃ q' k,
    writeAll b cs st !! c = Some q' ∧
    destroyed q' = destroyed q ∧ writableEnded q' = writableEnded q ∧
    cleanupSession q' = cleanupSession q ∧
    written q' = written q ++ replicate k b ∧
    (k ≠ 0%nat ↔ c ∈ cs ∧ live q = true) ∧
    (NoDup cs → (k ≤ 1)%nat).
Proof.
  revert st q. induction cs as [|c0 cs IH]; intros st q Hq.
  - exists q, 0%nat. simpl. rewrite List.app_nil_r, elem_of_nil.
    split_and!; try done; [tauto | lia].
  - pose proof (writeIfLive_lookup b st c0 c q Hq) as H1.
    destruct (IH _ _ H1) as (q' & k & Hl & Hd & He & Hc & Hw & Hk & Hnd).
    clear IH. unfold writeAll in *. simpl foldl. rewrite Hl.
    unfold live in *.
    destruct (decide (c0 = c)) as [->|Hne];
      [destruct (destroyed q) eqn:Ed;
         [|unfold write in Hd, He, Hc, Hw, Hk;
           destruct (writableEnded q) eqn:Ee; simpl in *]|].
    + exists q', k. rewrite elem_of_cons; rewrite ?Hd, ?He, ?Ed in *. simpl in *.
      split_and!; try done; [naive_solver|].
      intros [_ ?]%NoDup_cons. auto.
    + exists q', k. rewrite elem_of_cons; rewrite ?Hd, ?He, ?Ed, ?Ee in *. simpl in *.
      split_and!; try done; [naive_solver|].
      intros [_ ?]%NoDup_cons. auto.
    + exists q', (S k). rewrite elem_of_cons; rewrite ?Hd, ?He, ?Ed, ?Ee in *. simpl in *.
      split_and!; try done.
      * by rewrite Hw, <- app_assoc.
      * split; [auto|lia].
      * intros [Hnot _]%NoDup_cons.
        destruct (decide (k = 0%nat)) as [->|Hk0]; [lia|].
        apply Hk in Hk0 as [? _]. done.
    + exists q', k. rewrite elem_of_cons.
      split_and!; try done; [|intros [_ ?]%NoDup_cons; auto].
      rewrite Hk. split; [tauto|]. intros [[?|?] ?]; [congruence|done].
Qed.

Lemma endOne_length st c : length (endOne st c) = length st.
Proof.
  unfold endOne. destruct (st !! c); [|done]. by rewrite length_insert.
Qed.

Lemma endOne_lookup st c c' q :
  st !! c' = Some q →
  endOne st c !! c' = Some (if decide (c = c') then end_ q else q).
Proof.
  intros Hq. unfold endOne. destruct (decide (c = c')) as [->|Hne].
  - rewrite Hq. apply list_lookup_insert_eq. by eapply lookup_lt_Some.
  - destruct (st !! c); [|done]. by rewrite list_lookup_insert_ne.
Qed.

(** The end loop changes nothing but [writableEnded], which it sets on
    every client of the set and never resets. *)
Lemma endAll_lookup cs st c q :
  st !! c = Some q →
  ∃ q',
    endAll cs st !! c = Some q' ∧
    destroyed q' = destroyed q ∧ written q' = written q ∧
    cleanupSession q' = cleanupSession q ∧
    (writableEnded q = true → writableEnded q' = true) ∧
    (c ∈ cs → writableEnded q' = true).
Proof.
  revert st q. induction cs as [|c0 cs IH]; intros st q Hq.
  - exists q. simpl. repeat split; try done. by intros ?%elem_of_nil.
  - pose proof (endOne_lookup st c0 c q Hq) as H1.
    destruct (IH _ _ H1) as (q' & Hl & Hd & Hw & Hc & He & Hin).
    exists q'. unfold endAll in *. simpl foldl. rewrite Hl.
    destruct (decide (c0 = c)) as [->|Hne]; simpl in *.
    + repeat split; auto.
    + repeat split; auto. intros [?|?]%elem_of_cons; [congruence|auto].
Qed.

Lemma endAll_length cs st : length (endAll cs st) = length st.
Proof.
  revert st. induction cs as [|c cs IH]; intros st; [done|].
  unfold endAll in *. simpl. by rewrite IH, endOne_length.
Qed.

(** ** The session objects, one event at a time *)

Lemma Buffer_length_concat_snoc chunks chunk :
  Buffer_length (Buffer_concat (chunks ++ [chunk])) =
  Buffer_length (Buffer_concat chunks) + Buffer_length chunk.
Proof.
  unfold Buffer_length, Buffer_concat.
  rewrite concat_app, length_app. simpl. rewrite List.app_nil_r. lia.
Qed.

Lemma Set_add_NoDup c l : NoDup l → NoDup (Set_add c l).
Proof.
  intros Hl. unfold Set_add, Set_has. case_bool_decide as Hin; [done|].
  apply NoDup_app. split_and!; [done| |apply NoDup_singleton].
  intros x Hx ->%list_elem_of_singleton. done.
Qed.

Lemma Set_delete_NoDup c l : NoDup l → NoDup (Set_delete c l).
Proof. intros Hl. unfold Set_delete. by apply NoDup_filter. Qed.

(** Splits on whether the updated object [q] is the object [p] in view. *)
Ltac store_lookup p :=
  match goal with
  | |- context [<[?q := ?x]> ?l !! p] =>
      let Heq := fresh "Heq" in
      destruct (decide (q = p)) as [Heq|?];
      [rewrite Heq in *;
       rewrite list_lookup_insert_eq by (eapply lookup_lt_Some; eassumption)
      |rewrite list_lookup_insert_ne by assumption]
  | |- context [(?l ++ _) !! p] =>
      rewrite (lookup_app_l l) by (eapply lookup_lt_Some; eassumption)
  end.

(** What any one event does to the session object [p]: its identity fields
    are fixed, a resolved [initBuffer] stays as it is, an unresolved one
    keeps every chunk of the process in [preInitChunks], and without a chunk
    an empty buffer is never promoted. *)
Lemma step_session s e p sess :
  objs s !! p = Some sess →
  ∃ sess',
    objs (step s e) !! p = Some sess' ∧
    id sess' = id sess ∧ process sess' = process sess ∧
    source sess' = source sess ∧
    (∀ b, initBuffer sess = Some b → initBuffer sess' = Some b) ∧
    (initBuffer sess' = None →
       initBuffer sess = None ∧
       preInitChunks sess' = preInitChunks sess ++ chunksOf p [e]) ∧
    (initBuffer sess = None → preInitChunks sess = [] → chunksOf p [e] = [] →
       initBuffer sess' = None) ∧
    (preInitSize sess = Buffer_length (Buffer_concat (preInitChunks sess)) →
       preInitSize sess' = Buffer_length (Buffer_concat (preInitChunks sess'))) ∧
    (NoDup (clients sess) → NoDup (clients sess')).
Proof.
  intros Hp.
  destruct e; cbn [step];
    unfold startStream, getStreamData, stopStream, onSpawn, onError, onClose,
      onData, onInitTimeout, cleanup;
    repeat case_match; cbn [fst snd objs]; try store_lookup p; simplify_eq;
    rewrite ?Hp; (eexists; split; [reflexivity|]); simpl;
    repeat case_decide; simplify_eq; rewrite ?List.app_nil_r;
    split_and!; try done; try congruence.
  all: try (intros; first [apply Set_add_NoDup | apply Set_delete_NoDup | apply NoDup_nil]; done).
  all: intros Hs; rewrite ?Buffer_length_concat_snoc, Hs;
    repeat match goal with H : preInitChunks _ = _ |- _ => rewrite H end; done.
Qed.

(** ** The session objects, along a run *)

Lemma run_cons s e evs : run s (e :: evs) = run (step s e) evs.
Proof. done. Qed.

Lemma chunksOf_cons p e evs : chunksOf p (e :: evs) = chunksOf p [e] ++ chunksOf p evs.
Proof. destruct e; simpl; try done. by case_decide. Qed.

Lemma run_session evs s p sess :
  objs s !! p = Some sess →
  ∃ sess',
    objs (run s evs) !! p = Some sess' ∧
    id sess' = id sess ∧ process sess' = process sess ∧
    source sess' = source sess ∧
    (∀ b, initBuffer sess = Some b → initBuffer sess' = Some b) ∧
    (initBuffer sess' = None →
       initBuffer sess = None ∧
       preInitChunks sess' = preInitChunks sess ++ chunksOf p evs) ∧
    (initBuffer sess = None → preInitChunks sess = [] → chunksOf p evs = [] →
       initBuffer sess' = None) ∧
    (preInitSize sess = Buffer_length (Buffer_concat (preInitChunks sess)) →
       preInitSize sess' = Buffer_length (Buffer_concat (preInitChunks sess'))) ∧
    (NoDup (clients sess) → NoDup (clients sess')).
Proof.
  revert s sess. induction evs as [|e evs IH]; intros s sess Hp.
  - exists sess. simpl. rewrite List.app_nil_r. by split_and!.
  - destruct (step_session s e p sess Hp)
      as (s1 & Hp1 & Hid1 & Hpr1 & Hso1 & Hmono1 & Hbuf1 & Hzero1 & Hsz1 & Hnd1).
    destruct (IH _ _ Hp1)
      as (s2 & Hp2 & Hid2 & Hpr2 & Hso2 & Hmono2 & Hbuf2 & Hzero2 & Hsz2 & Hnd2).
    exists s2. rewrite run_cons, chunksOf_cons.
    split_and!; try congruence; auto.
    + intros Hn. destruct (Hbuf2 Hn) as [Hn1 Heq2].
      destruct (Hbuf1 Hn1) as [Hn0 Heq1].
      split; [done|]. by rewrite Heq2, Heq1, <- app_assoc.
    + intros Hn Hempty [He Hevs]%app_eq_nil.
      specialize (Hzero1 Hn Hempty He).
      apply Hzero2; [done| |done].
      destruct (Hbuf1 Hzero1) as [_ ->]. by rewrite Hempty, He.
Qed.

(** [startStream] with a [spawn] that returns allocates a fresh object. *)
Lemma startStream_Pending sessionId rtspUrl throws s s' p :
  startStream sessionId rtspUrl throws s = (s', Pending p) →
  p = length (objs s) ∧
  objs s' !! p = Some (new_session sessionId rtspUrl p) ∧
  (∀ q sess, objs s !! q = Some sess → objs s' !! q = Some sess) ∧
  JsMap.get sessionId (sessions s') = Some p ∧
  streams s' = streams s ∧ killed s' = killed s.
Proof.
  unfold startStream. repeat case_match; intros [= <- <-]; cbn [objs sessions streams killed].
  split_and!; try done.
  - by apply list_lookup_middle.
  - intros q sess Hq. by apply lookup_app_l_Some.
  - apply JsMap_get_set_eq.
Qed.

(** C1.  Once [initBuffer] of a session object is set, no sequence of
    events (stdout chunks that match a marker or pass the size cap, timer
    callbacks, or anything else) assigns it again: the object keeps the very
    same buffer. So [initBuffer] goes from unset to set at most once; on a
    resolved session the timer callback does nothing at all and the stdout
    handler leaves the session object as it is. *)
Theorem initBuffer_set_once :
  ∀ (s : RTSPService) (evs : list Event) (p : nat) (sess : StreamSession) (b : Buffer),
    objs s !! p = Some sess →
    initBuffer sess = Some b →
    (∃ sess', objs (run s evs) !! p = Some sess' ∧ initBuffer sess' = Some b) ∧
    onInitTimeout p s = s ∧
    (∀ chunk, objs (onData p chunk s) = objs s).
Proof.
  intros s evs p sess b Hp Hb. split_and!.
  - destruct (run_session evs s p sess Hp) as (sess' & Hp' & _ & _ & _ & Hmono & _).
    exists sess'. auto.
  - unfold onInitTimeout. by rewrite Hp, Hb.
  - intros chunk. unfold onData. by rewrite Hp, Hb.
Qed.

(** ** The client streams, one event at a time *)

Lemma writeAll_stream b cs st c q :
  st !! c = Some q →
  ∃ q' k,
    writeAll b cs st !! c = Some q' ∧
    cleanupSession q' = cleanupSession q ∧
    live q' = live q ∧
    written q' = written q ++ replicate k b ∧
    (k ≠ 0%nat → c ∈ cs ∧ live q = true ∧ (NoDup cs → k = 1%nat)) ∧
    (c ∈ cs → live q = true → k ≠ 0%nat).
Proof.
  intros Hq.
  destruct (writeAll_lookup b cs st c q Hq) as (q' & k & Hl & Hd & He & Hc & Hw & Hk & Hn).
  exists q', k. split_and!; try done.
  - unfold live. by rewrite Hd, He.
  - intros Hk0. destruct (proj1 Hk Hk0). split_and!; try done.
    intros Hnd. specialize (Hn Hnd). lia.
  - intros ??. by apply Hk.
Qed.

Lemma step_stream s e c q :
  streams s !! c = Some q →
  ∃ q' k b,
    streams (step s e) !! c = Some q' ∧
    cleanupSession q' = cleanupSession q ∧
    (live q = false → live q' = false) ∧
    written q' = written q ++ replicate k b ∧
    (k ≠ 0%nat →
       ∃ p sess, objs s !! p = Some sess ∧ c ∈ clients sess ∧ live q = true ∧
                 (NoDup (clients sess) → k = 1%nat) ∧ wrote s e p sess b).
Proof.
  intros Hq.
  pose (P := λ st : list PassThrough,
    ∃ q' k b, st !! c = Some q' ∧
      cleanupSession q' = cleanupSession q ∧
      (live q = false → live q' = false) ∧
      written q' = written q ++ replicate k b ∧
      (k ≠ 0%nat →
         ∃ p sess, objs s !! p = Some sess ∧ c ∈ clients sess ∧ live q = true ∧
                   (NoDup (clients sess) → k = 1%nat) ∧ wrote s e p sess b)).
  change (P (streams (step s e))).
  assert (Hsame : P (streams s)).
  { exists q, 0%nat, []. simpl. rewrite List.app_nil_r. by split_and!. }
  assert (Hend : ∀ cs, P (endAll cs (streams s))).
  { intros cs. destruct (endAll_lookup cs _ _ _ Hq) as (q' & Hl & Hd & Hw & Hc & He & _).
    exists q', 0%nat, []. simpl. rewrite List.app_nil_r. split_and!; try done.
    unfold live. rewrite Hd. destruct (destroyed q); [done|]. simpl.
    destruct (writableEnded q); [|done]. by rewrite He. }
  assert (Hwr : ∀ p sess b, objs s !! p = Some sess → wrote s e p sess b →
            P (writeAll b (clients sess) (streams s))).
  { intros p sess b Hp Hwrote.
    destruct (writeAll_stream b (clients sess) _ _ _ Hq) as (q' & k & Hl & Hc & Hlv & Hw & Hk & _).
    exists q', k, b. split_and!; try done; [congruence|].
    intros Hk0. destruct (Hk Hk0) as (? & ? & ?). exists p, sess. by split_and!. }
  assert (Happ : ∀ x, P (streams s ++ [x])).
  { intros x. destruct Hsame as (q' & k & b & Hl & ?). exists q', k, b.
    split; [by apply lookup_app_l_Some|done]. }
  destruct e; cbn [step];
    unfold startStream, getStreamData, stopStream, onSpawn, onError, onClose,
      onData, onInitTimeout, cleanup;
    repeat case_match; cbn [fst snd streams]; auto.
  1-4: eapply Hwr; [eassumption|]; unfold wrote.
  1: { right. split; [|done]. by eexists. }
  1-3: left; (split; [done|]); cbn [step]; unfold onData, onInitTimeout;
    repeat match goal with H : ?x = _ |- context [?x] => rewrite H end;
    cbn [objs]; eexists;
    (split; [apply list_lookup_insert_eq; eapply lookup_lt_Some; eassumption|]);
    reflexivity.
  destruct (decide (client = c)) as [->|Hne].
  - exists (destroy q), 0%nat, []. simplify_eq. simpl. rewrite List.app_nil_r.
    split_and!; try done.
    apply list_lookup_insert_eq. by eapply lookup_lt_Some.
  - destruct Hsame as (q' & k & b & Hl & ?). exists q', k, b.
    split; [by rewrite list_lookup_insert_ne|done].
Qed.

(** The same split as [store_lookup], for a lookup in a hypothesis. *)
Ltac store_lookup_in H p :=
  match type of H with
  | context [<[?q := ?x]> ?l !! p] =>
      let Heq := fresh "Heq" in
      destruct (decide (q = p)) as [Heq|?];
      [rewrite Heq in *;
       rewrite list_lookup_insert_eq in H by (eapply lookup_lt_Some; eassumption)
      |rewrite list_lookup_insert_ne in H by assumption]
  | context [(?l ++ _) !! p] =>
      rewrite (lookup_app_l l) in H by (eapply lookup_lt_Some; eassumption)
  end.

(** The event that resolves [initBuffer] of the object [p] promotes exactly
    what was buffered, together with the chunk of the event if it is a
    chunk of [p], empties the buffer, and writes the new [initBuffer] to the
    clients of the session and to nothing else. *)
Lemma step_resolves s e p sess sess' b :
  objs s !! p = Some sess →
  objs (step s e) !! p = Some sess' →
  initBuffer sess = None →
  initBuffer sess' = Some b →
  b = Buffer_concat (preInitChunks sess ++ chunksOf p [e]) ∧
  preInitChunks sess' = [] ∧
  clients sess' = clients sess ∧
  streams (step s e) = writeAll b (clients sess) (streams s).
Proof.
  intros Hp Hp' Hn Hb. revert Hp'.
  destruct e; cbn [step];
    unfold startStream, getStreamData, stopStream, onSpawn, onError, onClose,
      onData, onInitTimeout, cleanup;
    repeat case_match; cbn [fst snd objs streams]; intros Hp';
    try store_lookup_in Hp' p; rewrite ?Hp in *; simplify_eq; simpl in *;
    try congruence.
  all: repeat case_decide; simplify_eq; rewrite ?List.app_nil_r; try done.
  split_and!; try done.
  match goal with H : preInitChunks _ = _ |- _ => by rewrite H end.
Qed.

Lemma onData_relay s p chunk sess :
  objs s !! p = Some sess →
  is_Some (initBuffer sess) →
  objs (onData p chunk s) = objs s ∧
  streams (onData p chunk s) = writeAll chunk (clients sess) (streams s).
Proof. intros Hp [b Hb]. unfold onData. by rewrite Hp, Hb. Qed.

(** The clients of a session after an event were its clients before, or
    the event is the [getStreamData] that created the client; the new stream
    was written [initBuffer] when resolved and nothing otherwise. *)
Lemma step_clients s e p sess sess' c :
  objs s !! p = Some sess →
  objs (step s e) !! p = Some sess' →
  c ∈ clients sess' →
  c ∈ clients sess ∨
  (c = length (streams s) ∧ initBuffer sess' = initBuffer sess ∧
   streams (step s e) = streams s ++
     [match initBuffer sess with
      | Some init => write init (new_PassThrough p)
      | None => new_PassThrough p
      end]).
Proof.
  intros Hp Hp'. revert Hp'.
  destruct e; cbn [step];
    unfold startStream, getStreamData, stopStream, onSpawn, onError, onClose,
      onData, onInitTimeout, cleanup;
    repeat case_match; cbn [fst snd objs streams]; intros Hp';
    try store_lookup_in Hp' p; rewrite ?Hp in *; simplify_eq; simpl in *;
    auto.
  all: try (by intros ?%elem_of_nil).
  all: try (unfold Set_delete; intros [_ ?]%list_elem_of_filter; by left).
  all: unfold Set_add; case_match; [by left|];
    intros [?|?%list_elem_of_singleton]%elem_of_app; auto.
Qed.

(** Objects and streams are only ever added at the end of the store. *)
Lemma step_new_object s e p sess' :
  objs (step s e) !! p = Some sess' →
  objs s !! p = None →
  p = length (objs s) ∧
  ∃ sessionId rtspUrl,
    sess' = new_session sessionId rtspUrl p ∧
    JsMap.get sessionId (sessions (step s e)) = Some p.
Proof.
  intros Hp' Hp. revert Hp'.
  assert (Hold : objs s !! p = Some sess' → False) by congruence.
  assert (Hins : ∀ q x, <[q:=x]> (objs s) !! p = Some sess' → False).
  { intros q x Hlt%lookup_lt_Some. rewrite length_insert in Hlt.
    apply lookup_ge_None_1 in Hp. lia. }
  destruct e; cbn [step];
    unfold startStream, getStreamData, stopStream, onSpawn, onError, onClose,
      onData, onInitTimeout, cleanup;
    repeat case_match; cbn [fst snd objs sessions];
    try (intros Hp'; exfalso; by eauto).
  intros [Hp'|[Hlen Hp']]%lookup_app_Some; [done|].
  apply lookup_ge_None_1 in Hp.
  destruct (p - length (objs s))%nat as [|n] eqn:En; [|done].
  assert (p = length (objs s)) as -> by lia.
  simpl in Hp'. simplify_eq. split; [done|].
  eexists _, _. split; [done|]. apply JsMap_get_set_eq.
Qed.

Lemma Set_add_here c l : c ∈ Set_add c l.
Proof.
  unfold Set_add, Set_has. case_bool_decide; [done|].
  apply elem_of_app. right. by apply list_elem_of_singleton.
Qed.

Lemma step_new_stream s e c q' :
  streams (step s e) !! c = Some q' →
  streams s !! c = None →
  c = length (streams s) ∧
  ∃ p sess sess',
    objs s !! p = Some sess ∧ objs (step s e) !! p = Some sess' ∧
    initBuffer sess' = initBuffer sess ∧ c ∈ clients sess' ∧
    q' = match initBuffer sess with
         | Some init => write init (new_PassThrough p)
         | None => new_PassThrough p
         end.
Proof.
  intros Hc' Hc. revert Hc'.
  assert (Hold : streams s !! c = Some q' → False) by congruence.
  assert (Hlen : ∀ st : list PassThrough,
            length st = length (streams s) → st !! c = Some q' → False).
  { intros st Hst Hlt%lookup_lt_Some. apply lookup_ge_None_1 in Hc. lia. }
  destruct e; cbn [step];
    unfold startStream, getStreamData, stopStream, onSpawn, onError, onClose,
      onData, onInitTimeout, cleanup;
    repeat case_match; cbn [fst snd objs streams];
    try (intros Hc'; exfalso; by eauto using writeAll_length, endAll_length, length_insert).
  all: intros [Hc'|[Hge Hc']]%lookup_app_Some; [done|].
  all: apply lookup_ge_None_1 in Hc.
  all: destruct (c - length (streams s))%nat as [|k] eqn:Ek; [|done].
  all: assert (c = length (streams s)) as -> by lia.
  all: simpl in Hc'; simplify_eq; (split; [done|]).
  all: eexists _, _, _; split; [eassumption|].
  all: (split; [apply list_lookup_insert_eq; by eapply lookup_lt_Some|]).
  all: simpl; repeat case_match; simplify_eq; split_and!; try done.
  all: apply Set_add_here.
Qed.

Lemma step_registry s e k p :
  (k, p) ∈ sessions (step s e) →
  (k, p) ∈ sessions s ∨
  (p = length (objs s) ∧
   ∃ rtspUrl, objs (step s e) !! p = Some (new_session k rtspUrl p)).
Proof.
  destruct e; cbn [step];
    unfold startStream, getStreamData, stopStream, onSpawn, onError, onClose,
      onData, onInitTimeout, cleanup;
    repeat case_match; cbn [fst snd objs sessions]; auto.
  - intros [[-> ->]|?]%JsMap_elem_of_set; [right|by left].
    split; [done|]. eexists. by apply list_lookup_middle.
  - intros [_ ?]%JsMap_elem_of_delete. by left.
  - intros [_ ?]%JsMap_elem_of_delete. by left.
Qed.

(** ** Well-formed states *)

Lemma wf_initial : wf initial.
Proof.
  split; simpl; try (intros; simplify_eq; done).
  intros k p []%elem_of_nil.
Qed.

Lemma wf_step s e : wf s → wf (step s e).
Proof.
  intros [Hown Hex Hfirst Hserved Hnd Hsz Hproc Hreg]. split.
  - (* wf_owner *)
    intros p sess' c Hp' Hc.
    destruct (objs s !! p) as [sess|] eqn:Hp.
    + destruct (step_clients _ _ _ _ _ _ Hp Hp' Hc) as [Hold|(-> & _ & Hst)].
      * destruct (Hown _ _ _ Hp Hold) as (q & Hq & Hqp).
        destruct (step_stream s e c q Hq) as (q' & k & b & Hq' & Hc' & _).
        exists q'. split; [done|congruence].
      * rewrite Hst. eexists. split; [by apply list_lookup_middle|].
        by destruct (initBuffer sess).
    + destruct (step_new_object _ _ _ _ Hp' Hp) as (_ & sid & url & -> & _).
      by apply elem_of_nil in Hc.
  - (* wf_owner_exists *)
    intros c q' Hq'.
    destruct (streams s !! c) as [q|] eqn:Hq.
    + destruct (step_stream s e c q Hq) as (q'' & k & b & Hq'' & Hc' & _).
      simplify_eq. rewrite Hc'. destruct (Hex _ _ Hq) as [sess Hsess].
      destruct (step_session s e _ _ Hsess) as (sess' & Hsess' & _). eauto.
    + destruct (step_new_stream _ _ _ _ Hq' Hq)
        as (_ & p & sess & sess' & Hp & Hp' & _ & _ & ->).
      destruct (initBuffer sess); simpl; eauto.
  - (* wf_first *)
    intros c q' sess' b rest Hq' Hp' Hw.
    destruct (streams s !! c) as [q|] eqn:Hq.
    + destruct (step_stream s e c q Hq) as (q'' & k & b0 & Hq'' & Hc' & _ & Hw' & Hk).
      simplify_eq. rewrite Hc' in Hp'.
      destruct (Hex _ _ Hq) as [sess Hsess].
      destruct (step_session s e _ _ Hsess) as (sess'' & Hsess' & _ & _ & _ & Hmono & _).
      simplify_eq. rewrite Hw' in Hw.
      destruct (written q) as [|b1 r] eqn:Hwq.
      * destruct k as [|k]; [done|]. simpl in Hw. simplify_eq.
        destruct (Hk ltac:(done)) as (p & sess0 & Hp0 & Hin & Hlive & _ & Hwrote).
        destruct (Hown _ _ _ Hp0 Hin) as (q0 & Hq0 & Hq0p). simplify_eq.
        destruct Hwrote as [(_ & s1 & Hs1 & Hb1)|([b1 Hb1] & _)].
        -- by simplify_eq.
        -- rewrite (Hserved _ _ _ _ _ Hsess Hin Hq Hb1 Hwq) in Hlive. done.
      * simpl in Hw. simplify_eq. eauto.
    + destruct (step_new_stream _ _ _ _ Hq' Hq)
        as (_ & p & sess & sess0 & Hp & Hp0 & Hinit & _ & ->).
      destruct (initBuffer sess) as [init|] eqn:Hi; simpl in *; simplify_eq.
      congruence.
  - (* wf_served *)
    intros p sess' c q' b Hp' Hc Hq' Hb Hw.
    destruct (objs s !! p) as [sess|] eqn:Hp.
    + destruct (step_clients _ _ _ _ _ _ Hp Hp' Hc) as [Hold|(-> & Hinit & Hst)].
      * destruct (Hown _ _ _ Hp Hold) as (q & Hq & Hqp).
        destruct (step_stream s e c q Hq) as (q'' & k & b0 & Hq'' & _ & Hlv & Hw' & _).
        simplify_eq. rewrite Hw' in Hw. apply app_eq_nil in Hw as [Hwq Hrep].
        destruct (live q) eqn:Hlive; [|auto]. exfalso.
        destruct (initBuffer sess) as [b1|] eqn:Hi.
        -- rewrite (Hserved _ _ _ _ _ Hp Hold Hq Hi Hwq) in Hlive. done.
        -- destruct (step_resolves _ _ _ _ _ _ Hp Hp' Hi Hb) as (_ & _ & _ & Hst).
           destruct (writeAll_stream b (clients sess) _ _ _ Hq)
             as (q1 & k1 & Hq1 & _ & _ & Hw1 & _ & Hk1).
           rewrite Hst in Hq'. simplify_eq.
           specialize (Hk1 Hold Hlive). rewrite Hw1, Hwq, Hrep in Hw'.
           by destruct k1.
      * rewrite Hst, list_lookup_middle in Hq' by done.
        rewrite <- Hinit, Hb in Hq'. by simplify_eq.
    + destruct (step_new_object _ _ _ _ Hp' Hp) as (_ & sid & url & -> & _).
      by apply elem_of_nil in Hc.
  - (* wf_nodup *)
    intros p sess' Hp'. destruct (objs s !! p) as [sess|] eqn:Hp.
    + destruct (step_session s e _ _ Hp) as (sess'' & Hsess' & Hrest).
      simplify_eq. apply Hrest. eauto.
    + destruct (step_new_object _ _ _ _ Hp' Hp) as (_ & sid & url & -> & _).
      apply NoDup_nil_2.
  - (* wf_size *)
    intros p sess' Hp'. destruct (objs s !! p) as [sess|] eqn:Hp.
    + destruct (step_session s e _ _ Hp) as (sess'' & Hsess' & Hrest).
      simplify_eq. apply Hrest. eauto.
    + by destruct (step_new_object _ _ _ _ Hp' Hp) as (_ & sid & url & -> & _).
  - (* wf_process *)
    intros p sess' Hp'. destruct (objs s !! p) as [sess|] eqn:Hp.
    + destruct (step_session s e _ _ Hp) as (sess'' & Hsess' & _ & Hpr & Hso & _).
      simplify_eq. rewrite Hpr, Hso. eauto.
    + by destruct (step_new_object _ _ _ _ Hp' Hp) as (_ & sid & url & -> & _).
  - (* wf_registry *)
    intros k p [Hold|(-> & url & Hnew)]%step_registry.
    + destruct (Hreg _ _ Hold) as (sess & Hsess & Hid).
      destruct (step_session s e _ _ Hsess) as (sess' & Hsess' & Hid' & _).
      exists sess'. split; [done|congruence].
    + eauto.
Qed.

Lemma wf_run s evs : wf s → wf (run s evs).
Proof.
  revert s. induction evs as [|e evs IH]; intros s Hs; [done|].
  rewrite run_cons. by apply IH, wf_step.
Qed.

Lemma reachable_wf s : reachable s → wf s.
Proof. intros [evs ->]. apply wf_run, wf_initial. Qed.
Lemma initBuffer_set_once_witness :
  (∃ sess',
     objs (run (run initial streaming_run)
             [InitTimeout 0; ProcStdout 0 (chunk3 ++ ftyp); InitTimeout 0]) !! 0%nat
       = Some sess' ∧
     initBuffer sess' = Some (chunk1 ++ chunk2)) ∧
  onInitTimeout 0 (run initial streaming_run) = run initial streaming_run ∧
  (∀ chunk, objs (onData 0 chunk (run initial streaming_run)) =
            objs (run initial streaming_run)).
Proof.
  apply (initBuffer_set_once (run initial streaming_run)
           [InitTimeout 0; ProcStdout 0 (chunk3 ++ ftyp); InitTimeout 0]
           0%nat streaming_session (chunk1 ++ chunk2)); reflexivity.
Defined.

(** ** The client streams, along a run *)

Lemma run_stream evs s c q :
  streams s !! c = Some q →
  ∃ q' ws,
    streams (run s evs) !! c = Some q' ∧
    cleanupSession q' = cleanupSession q ∧
    written q' = written q ++ ws.
Proof.
  revert s q. induction evs as [|e evs IH]; intros s q Hq.
  - exists q, []. by rewrite List.app_nil_r.
  - destruct (step_stream s e c q Hq) as (q1 & k & b & Hq1 & Hc1 & _ & Hw1 & _).
    destruct (IH _ _ Hq1) as (q2 & ws & Hq2 & Hc2 & Hw2).
    exists q2, (replicate k b ++ ws). rewrite run_cons.
    split_and!; [done|congruence|]. by rewrite Hw2, Hw1, <- app_assoc.
Qed.

(** A session that was just created and has seen [evs] since, while still
    unresolved, buffers exactly the chunks its process wrote during [evs],
    and [preInitSize] is their total size. *)
Lemma fresh_session_history sessionId rtspUrl s0 s1 p evs sess :
  startStream sessionId rtspUrl false s0 = (s1, Pending p) →
  objs (run s1 evs) !! p = Some sess →
  initBuffer sess = None →
  preInitChunks sess = chunksOf p evs ∧
  preInitSize sess = Buffer_length (Buffer_concat (chunksOf p evs)).
Proof.
  intros (_ & Hnew & _)%startStream_Pending Hp Hn.
  destruct (run_session evs _ _ _ Hnew)
    as (sess' & Hp' & _ & _ & _ & _ & Hbuf & _ & Hsz & _).
  simplify_eq. destruct (Hbuf Hn) as [_ Heq]. simpl in Heq.
  split; [done|]. rewrite <- Heq. by apply Hsz.
Qed.

(** What the stdout handler does with a chunk on an unresolved session. *)
Lemma onData_unresolved s p chunk sess :
  objs s !! p = Some sess →
  initBuffer sess = None →
  let all := Buffer_concat (preInitChunks sess ++ [chunk]) in
  ∃ sess',
    objs (onData p chunk s) !! p = Some sess' ∧
    clients sess' = clients sess ∧
    if (MAX_PREINIT_BYTES <? preInitSize sess + Buffer_length chunk) || hasMarker all
    then initBuffer sess' = Some all ∧ preInitChunks sess' = [] ∧
         streams (onData p chunk s) = writeAll all (clients sess) (streams s)
    else initBuffer sess' = None ∧
         preInitChunks sess' = preInitChunks sess ++ [chunk] ∧
         streams (onData p chunk s) = streams s.
Proof.
  intros Hp Hn. unfold onData, hasMarker. rewrite Hp, Hn.
  repeat case_match; cbn [objs streams]; eexists;
    (split; [apply list_lookup_insert_eq; by eapply lookup_lt_Some|]);
    simpl in *; try done.
Qed.

(** ** Buffers without a marker *)

Lemma Buffer_length_Z_repeat b n : 0 ≤ n → Buffer_length (Z_repeat b n) = n.
Proof.
  intros Hn. unfold Buffer_length, Z_repeat. rewrite length_replicate. lia.
Qed.

Lemma indexOfFrom_replicate a needle b n i :
  Byte.eqb a b = false →
  indexOfFrom (a :: needle) (replicate n b) i = -1.
Proof.
  intros Hab. revert i. induction n as [|n IH]; intros i; simpl; [done|].
  rewrite Hab. simpl. apply IH.
Qed.

Lemma hasMarker_Z_repeat_x00 n : hasMarker (Z_repeat x00 n) = false.
Proof.
  unfold hasMarker, hasFtyp, hasMoov, hasMoof, indexOf, ftyp, moov, moof, Z_repeat.
  by rewrite !indexOfFrom_replicate.
Qed.

(** ** C2: the timer on a silent process *)

(** C2 (as stated, refuted).  The process of [cam] writes no chunk, the
    timer fires, and [initBuffer] is still unset: it is not the empty
    buffer. *)
Lemma timeout_on_silent_process_leaves_unset :
  chunksOf 0 silent_run = [] ∧
  getInitSegment cam (run initial silent_run) = None ∧
  getInitSegment cam (run initial silent_run) ≠ Some [].
Proof. by split_and!. Qed.

(** C2 (amended).  A session whose process has written no chunk is never
    resolved by the timer, nor by anything else: however many events
    happened since it was created, the timer callback among them,
    [initBuffer] is unset and nothing is buffered.  The timer callback itself
    only clears the timer handle: the state it leaves is the state it found
    with [initTimer] of this session set to null, so the registry, every
    other session object, every other field of this one ([isActive],
    [clientCount], [clients], the empty buffer, the unset [initBuffer]),
    the client streams, the kills and the emitted events are as before. *)
Theorem silent_process_stays_unresolved :
  ∀ (sessionId url : string) (s0 s1 : RTSPService) (p : nat) (evs : list Event),
    startStream sessionId url false s0 = (s1, Pending p) →
    chunksOf p evs = [] →
    ∃ sess,
      objs (run s1 evs) !! p = Some sess ∧
      initBuffer sess = None ∧ preInitChunks sess = [] ∧ preInitSize sess = 0 ∧
      onInitTimeout p (run s1 evs) =
        {| sessions := sessions (run s1 evs);
           objs := <[p := {| id := id sess; rtspUrl := rtspUrl sess;
                             process := process sess; source := source sess;
                             isActive := isActive sess;
                             clientCount := clientCount sess;
                             clients := clients sess;
                             preInitChunks := preInitChunks sess;
                             preInitSize := preInitSize sess;
                             initBuffer := initBuffer sess;
                             initTimer := None |}]> (objs (run s1 evs));
           streams := streams (run s1 evs);
           killed := killed (run s1 evs);
           emitted := emitted (run s1 evs) |} ∧
      ∃ sess',
        objs (onInitTimeout p (run s1 evs)) !! p = Some sess' ∧
        initBuffer sess' = None ∧ initTimer sess' = None ∧
        streams (onInitTimeout p (run s1 evs)) = streams (run s1 evs).
Proof.
  intros sessionId url s0 s1 p evs (_ & Hnew & _)%startStream_Pending Hevs.
  destruct (run_session evs _ _ _ Hnew)
    as (sess & Hp & _ & _ & _ & _ & Hbuf & Hzero & Hsize & _).
  specialize (Hzero eq_refl eq_refl Hevs).
  destruct (Hbuf Hzero) as [_ Hchunks]. rewrite Hevs in Hchunks. simpl in Hchunks.
  specialize (Hsize eq_refl). rewrite Hchunks in Hsize.
  exists sess. split_and!; try done.
  - unfold onInitTimeout. rewrite Hp, Hzero, Hchunks. by rewrite <- Hzero, <- Hchunks.
  - unfold onInitTimeout. rewrite Hp, Hzero, Hchunks. cbn [objs streams].
    eexists. split; [apply list_lookup_insert_eq; by eapply lookup_lt_Some|done].
Qed.

Lemma silent_process_stays_unresolved_witness :
  ∃ sess,
    objs silent_state !! 0%nat = Some sess ∧
    initBuffer sess = None ∧ preInitChunks sess = [] ∧ preInitSize sess = 0 ∧
    onInitTimeout 0 silent_state =
      {| sessions := sessions silent_state;
         objs := <[0%nat := {| id := id sess; rtspUrl := rtspUrl sess;
                               process := process sess; source := source sess;
                               isActive := isActive sess;
                               clientCount := clientCount sess;
                               clients := clients sess;
                               preInitChunks := preInitChunks sess;
                               preInitSize := preInitSize sess;
                               initBuffer := initBuffer sess;
                               initTimer := None |}]> (objs silent_state);
         streams := streams silent_state;
         killed := killed silent_state;
         emitted := emitted silent_state |} ∧
    ∃ sess',
      objs (onInitTimeout 0 silent_state) !! 0%nat = Some sess' ∧
      initBuffer sess' = None ∧ initTimer sess' = None ∧
      streams (onInitTimeout 0 silent_state) = streams silent_state.
Proof.
  apply (silent_process_stays_unresolved cam cam_url initial
           (fst (startStream cam cam_url false initial)) 0%nat
           [ProcSpawn 0; GetStreamData cam; InitTimeout 0]); reflexivity.
Defined.

(** ** C4: the size cap *)

(** A first chunk without a marker that does not pass the cap is buffered. *)
Lemma first_chunk_buffered chunk :
  Buffer_length chunk ≤ MAX_PREINIT_BYTES →
  hasMarker chunk = false →
  getInitSegment cam
    (run initial [StartStream cam cam_url false; ProcSpawn 0; GetStreamData cam;
                  ProcStdout 0 chunk]) = None.
Proof.
  intros Hlen Hmark.
  unfold run. cbn [foldl].
  set (s := step (step (step initial _) _) _).
  assert (Hs : objs s !! 0%nat =
            Some {| id := cam; rtspUrl := cam_url; process := Some 0%nat;
                    source := Some 0%nat; isActive := true; clientCount := 1;
                    clients := [0%nat]; preInitChunks := []; preInitSize := 0;
                    initBuffer := None; initTimer := Some 0%nat |}) by done.
  assert (Hreg : sessions s = [(cam, 0%nat)]) by done.
  clearbody s. cbn [step].
  destruct (onData_unresolved s 0 chunk _ Hs eq_refl) as (sess' & Hp' & _ & Hif).
  cbn [preInitChunks preInitSize app] in Hif.
  unfold Buffer_concat in Hif. simpl concat in Hif. rewrite List.app_nil_r in Hif.
  rewrite Hmark in Hif.
  destruct (Z.ltb_spec MAX_PREINIT_BYTES (0 + Buffer_length chunk)); [lia|].
  destruct Hif as (Hinit & _). unfold getInitSegment, session_of.
  assert (Hreg' : sessions (onData 0 chunk s) = sessions s).
  { unfold onData. by repeat case_match. }
  rewrite Hreg', Hreg. cbn [JsMap.get]. rewrite String.eqb_refl. by rewrite Hp'.
Qed.

(** C4 (as stated, refuted).  The process writes one chunk of exactly
    [MAX_PREINIT_BYTES] bytes without a marker: the bytes buffered reach the
    ceiling, and the chunk is buffered without resolving [initBuffer]. *)
Lemma size_cap_not_reached_at_ceiling :
  chunksOf 0 ceiling_run = [ceiling_chunk] ∧
  Buffer_length ceiling_chunk = MAX_PREINIT_BYTES ∧
  hasMarker ceiling_chunk = false ∧
  getInitSegment cam (run initial ceiling_run) = None.
Proof.
  split; [reflexivity|]. unfold ceiling_run, ceiling_chunk. split_and!.
  - by apply Buffer_length_Z_repeat.
  - apply hasMarker_Z_repeat_x00.
  - apply first_chunk_buffered; [|apply hasMarker_Z_repeat_x00].
    by rewrite Buffer_length_Z_repeat.
Qed.

(** C4 (amended).  On a session still unresolved, the chunk that takes the
    bytes written by the process strictly above [MAX_PREINIT_BYTES] resolves
    [initBuffer] within its own handling: [initBuffer] is the concatenation
    of every chunk written so far, this one included, the buffer is
    released, and that [initBuffer] is what the clients are written (the
    premise that the stream has no marker is not needed for this).  A chunk
    that leaves the total at or below [MAX_PREINIT_BYTES], in a stream
    without marker, is buffered and resolves nothing. *)
Theorem size_cap_resolves_when_exceeded :
  ∀ (sessionId rtspUrl : string) (s0 s1 : RTSPService) (p : nat)
    (evs : list Event) (chunk : Buffer) (sess : StreamSession),
    startStream sessionId rtspUrl false s0 = (s1, Pending p) →
    objs (run s1 evs) !! p = Some sess →
    initBuffer sess = None →
    (MAX_PREINIT_BYTES < Buffer_length (Buffer_concat (chunksOf p evs ++ [chunk])) →
     ∃ sess',
       objs (step (run s1 evs) (ProcStdout p chunk)) !! p = Some sess' ∧
       initBuffer sess' = Some (Buffer_concat (chunksOf p evs ++ [chunk])) ∧
       preInitChunks sess' = [] ∧
       streams (step (run s1 evs) (ProcStdout p chunk)) =
         writeAll (Buffer_concat (chunksOf p evs ++ [chunk])) (clients sess)
           (streams (run s1 evs))) ∧
    (Buffer_length (Buffer_concat (chunksOf p evs ++ [chunk])) ≤ MAX_PREINIT_BYTES →
     hasMarker (Buffer_concat (chunksOf p evs ++ [chunk])) = false →
     ∃ sess',
       objs (step (run s1 evs) (ProcStdout p chunk)) !! p = Some sess' ∧
       initBuffer sess' = None ∧
       preInitChunks sess' = chunksOf p evs ++ [chunk] ∧
       streams (step (run s1 evs) (ProcStdout p chunk)) = streams (run s1 evs)).
Proof.
  intros sessionId rtspUrl s0 s1 p evs chunk sess Hstart Hp Hn.
  destruct (fresh_session_history _ _ _ _ _ _ _ Hstart Hp Hn) as [Hchunks Hsize].
  destruct (onData_unresolved _ _ chunk _ Hp Hn) as (sess' & Hp' & _ & Hif).
  rewrite Buffer_length_concat_snoc.
  rewrite Hchunks, Hsize in Hif. cbn [step].
  destruct (Z.ltb_spec MAX_PREINIT_BYTES
              (Buffer_length (Buffer_concat (chunksOf p evs)) + Buffer_length chunk));
    (split; [intros Hlen|intros Hlen Hmark]); try lia.
  - simpl in Hif. destruct Hif as (Hinit & Hrel & Hst). by exists sess'.
  - rewrite Hmark in Hif. simpl in Hif. destruct Hif as (Hinit & Hrel & Hst).
    by exists sess'.
Qed.

Lemma size_cap_resolves_when_exceeded_witness :
  ∃ sess',
    objs (step (run (fst (startStream cam cam_url false initial))
                  [ProcSpawn 0; GetStreamData cam])
            (ProcStdout 0 over_ceiling_chunk)) !! 0%nat = Some sess' ∧
    initBuffer sess' =
      Some (Buffer_concat (chunksOf 0 [ProcSpawn 0; GetStreamData cam] ++
                           [over_ceiling_chunk])) ∧
    preInitChunks sess' = [] ∧
    streams (step (run (fst (startStream cam cam_url false initial))
                     [ProcSpawn 0; GetStreamData cam])
               (ProcStdout 0 over_ceiling_chunk)) =
      writeAll (Buffer_concat (chunksOf 0 [ProcSpawn 0; GetStreamData cam] ++
                               [over_ceiling_chunk]))
        [0%nat]
        (streams (run (fst (startStream cam cam_url false initial))
                    [ProcSpawn 0; GetStreamData cam])).
Proof.
  apply (size_cap_resolves_when_exceeded cam cam_url initial
           (fst (startStream cam cam_url false initial)) 0%nat
           [ProcSpawn 0; GetStreamData cam] over_ceiling_chunk
           {| id := cam; rtspUrl := cam_url; process := Some 0%nat;
              source := Some 0%nat; isActive := true; clientCount := 1;
              clients := [0%nat]; preInitChunks := []; preInitSize := 0;
              initBuffer := None; initTimer := Some 0%nat |});
    [reflexivity | reflexivity | reflexivity |].
  rewrite Buffer_length_concat_snoc. unfold over_ceiling_chunk.
  rewrite Buffer_length_Z_repeat by (unfold MAX_PREINIT_BYTES; lia).
  change (Buffer_length (Buffer_concat (chunksOf 0 [ProcSpawn 0; GetStreamData cam])))
    with 0.
  lia.
Defined.

(** ** C5: resolution by a marker *)

(** A live client of a resolved session is written each relayed chunk once. *)
Lemma relay_to_live_client s p chunk sess c q :
  objs s !! p = Some sess →
  is_Some (initBuffer sess) →
  NoDup (clients sess) →
  c ∈ clients sess →
  streams s !! c = Some q →
  live q = true →
  ∃ q', streams (onData p chunk s) !! c = Some q' ∧
        live q' = true ∧ written q' = written q ++ [chunk].
Proof.
  intros Hp Hb Hnd Hc Hq Hlive.
  destruct (onData_relay s p chunk sess Hp Hb) as [_ ->].
  destruct (writeAll_stream chunk (clients sess) _ _ _ Hq)
    as (q' & k & Hq' & _ & Hlv & Hw & Hk & Hk').
  specialize (Hk' Hc Hlive). destruct (Hk Hk') as (_ & _ & Hone).
  rewrite (Hone Hnd) in Hw. exists q'. split_and!; [done|congruence|done].
Qed.

(** C5.  On a session created by [startStream] and still unresolved after
    the events [evs], a chunk with which the concatenation of the chunks
    written so far contains 'ftyp', 'moov' or 'moof' resolves [initBuffer]
    to that whole concatenation, this chunk included.  A client that was
    attached before and is live has then received exactly that [initBuffer],
    and the next chunk reaches it as the first relayed range. *)
Theorem marker_resolves_whole_buffer :
  ∀ (sessionId rtspUrl : string) (s0 s1 : RTSPService) (p : nat)
    (evs : list Event) (chunk next : Buffer) (sess : StreamSession),
    reachable s0 →
    startStream sessionId rtspUrl false s0 = (s1, Pending p) →
    objs (run s1 evs) !! p = Some sess →
    initBuffer sess = None →
    hasMarker (Buffer_concat (chunksOf p evs ++ [chunk])) = true →
    (∃ sess',
       objs (step (run s1 evs) (ProcStdout p chunk)) !! p = Some sess' ∧
       initBuffer sess' = Some (Buffer_concat (chunksOf p evs ++ [chunk])) ∧
       preInitChunks sess' = []) ∧
    (∀ c q,
       c ∈ clients sess → streams (run s1 evs) !! c = Some q → live q = true →
       ∃ q',
         streams (run (run s1 evs) [ProcStdout p chunk; ProcStdout p next]) !! c
           = Some q' ∧
         written q' = [Buffer_concat (chunksOf p evs ++ [chunk]); next]).
Proof.
  intros sessionId rtspUrl s0 s1 p evs chunk next sess Hreach Hstart Hp Hn Hmark.
  assert (Hwf : wf (run s1 evs)).
  { apply wf_run. replace s1 with (step s0 (StartStream sessionId rtspUrl false))
      by (cbn [step]; by rewrite Hstart).
    by apply wf_step, reachable_wf. }
  destruct (fresh_session_history _ _ _ _ _ _ _ Hstart Hp Hn) as [Hchunks _].
  destruct (onData_unresolved _ _ chunk _ Hp Hn) as (sess' & Hp' & Hcl & Hif).
  rewrite Hchunks, Hmark, orb_true_r in Hif. destruct Hif as (Hinit & Hrel & Hst).
  split; [by exists sess'|].
  intros c q Hc Hq Hlive.
  destruct (wf_owner _ Hwf _ _ _ Hp Hc) as (q0 & Hq0 & Hown). simplify_eq.
  assert (Hempty : written q = []).
  { destruct (written q) as [|b rest] eqn:Hw; [done|].
    pose proof (wf_first _ Hwf _ _ _ _ _ Hq Hp Hw). congruence. }
  destruct (writeAll_stream (Buffer_concat (chunksOf (cleanupSession q) evs ++ [chunk]))
              (clients sess) _ _ _ Hq)
    as (q1 & k & Hq1 & _ & Hlv1 & Hw1 & Hk & Hk').
  specialize (Hk' Hc Hlive). destruct (Hk Hk') as (_ & _ & Hone).
  rewrite (Hone (wf_nodup _ Hwf _ _ Hp)), Hempty in Hw1. simpl in Hw1.
  rewrite <- Hst in Hq1.
  assert (Hb' : is_Some (initBuffer sess')) by (rewrite Hinit; eauto).
  assert (Hnd' : NoDup (clients sess')).
  { rewrite Hcl. by apply (wf_nodup _ Hwf _ _ Hp). }
  assert (Hc' : c ∈ clients sess') by (by rewrite Hcl).
  assert (Hlive1 : live q1 = true) by congruence.
  destruct (relay_to_live_client _ _ next _ c q1 Hp' Hb' Hnd' Hc' Hq1 Hlive1)
    as (q2 & Hq2 & _ & Hw2).
  exists q2. split; [done|]. by rewrite Hw2, Hw1.
Qed.

Lemma marker_resolves_whole_buffer_witness :
  (∃ sess',
     objs (step (run (fst (startStream cam cam_url false initial))
                   [ProcSpawn 0; GetStreamData cam; ProcStdout 0 chunk1])
             (ProcStdout 0 chunk2)) !! 0%nat = Some sess' ∧
     initBuffer sess' = Some (chunk1 ++ chunk2) ∧
     preInitChunks sess' = []) ∧
  (∃ q',
     streams (run initial
                [StartStream cam cam_url false; ProcSpawn 0; GetStreamData cam;
                 ProcStdout 0 chunk1; ProcStdout 0 chunk2; ProcStdout 0 chunk3])
       !! 0%nat = Some q' ∧
     written q' = [chunk1 ++ chunk2; chunk3]).
Proof.
  destruct (marker_resolves_whole_buffer cam cam_url initial
              (fst (startStream cam cam_url false initial)) 0%nat
              [ProcSpawn 0; GetStreamData cam; ProcStdout 0 chunk1] chunk2 chunk3
              {| id := cam; rtspUrl := cam_url; process := Some 0%nat;
                 source := Some 0%nat; isActive := true; clientCount := 1;
                 clients := [0%nat]; preInitChunks := [chunk1];
                 preInitSize := 10; initBuffer := None; initTimer := Some 0%nat |})
    as [Hres Hclient];
    [by exists [] | reflexivity | reflexivity | reflexivity | reflexivity |].
  split; [exact Hres|].
  apply (Hclient 0%nat (new_PassThrough 0)); [|reflexivity|reflexivity].
  by apply list_elem_of_singleton.
Defined.

(** ** C6 and C7: what a client receives, and when *)

(** C6.  A client created by [getStreamData] on a session whose
    [initBuffer] is resolved holds that [initBuffer] as the only thing
    written to it when [getStreamData] returns, and whatever happens
    afterwards is written after it: the stream starts with [initBuffer]. *)
Theorem late_joiner_receives_init_first :
  ∀ (s s' : RTSPService) (sessionId : string) (client : nat) (init : Buffer)
    (evs : list Event),
    getStreamData sessionId s = (s', Some client) →
    getInitSegment sessionId s = Some init →
    (∃ q, streams s' !! client = Some q ∧ written q = [init]) ∧
    (∃ q rest, streams (run s' evs) !! client = Some q ∧ written q = init :: rest).
Proof.
  intros s s' sessionId client init evs Hget Hinit.
  assert (Hnow : ∃ q, streams s' !! client = Some q ∧ written q = [init]).
  { revert Hget Hinit. unfold getStreamData, getInitSegment, session_of.
    repeat case_match; intros [= <- <-]; try done.
    all: intros [= ->]; simplify_eq.
    cbn [streams]. eexists. split; [by apply list_lookup_middle|done]. }
  split; [done|]. destruct Hnow as (q & Hq & Hw).
  destruct (run_stream evs _ _ _ Hq) as (q' & ws & Hq' & _ & Hw').
  exists q', ws. split; [done|]. by rewrite Hw', Hw.
Qed.

Lemma late_joiner_receives_init_first_witness :
  (∃ q,
     streams (fst (getStreamData cam
                     (run initial [StartStream cam cam_url false; ProcSpawn 0;
                                   ProcStdout 0 chunk2]))) !! 0%nat = Some q ∧
     written q = [chunk2]) ∧
  (∃ q rest,
     streams (run (fst (getStreamData cam
                          (run initial [StartStream cam cam_url false; ProcSpawn 0;
                                        ProcStdout 0 chunk2])))
                [ProcStdout 0 chunk3; InitTimeout 0]) !! 0%nat = Some q ∧
     written q = chunk2 :: rest).
Proof.
  apply (late_joiner_receives_init_first
           (run initial [StartStream cam cam_url false; ProcSpawn 0; ProcStdout 0 chunk2])
           _ cam 0%nat chunk2 [ProcStdout 0 chunk3; InitTimeout 0]); reflexivity.
Defined.

(** C7.  In every reachable state, a client stream of a session, whether it
    is still in [clients] or only has the session in its [cleanup] closure,
    was written nothing as long as [initBuffer] is unset; and if anything was
    written to it, the first thing written is the [initBuffer] of the
    session. *)
Theorem no_bytes_before_resolution :
  ∀ (s : RTSPService) (p : nat) (sess : StreamSession) (c : nat) (q : PassThrough),
    reachable s →
    objs s !! p = Some sess →
    streams s !! c = Some q →
    c ∈ clients sess ∨ cleanupSession q = p →
    (initBuffer sess = None → written q = []) ∧
    (∀ b rest, written q = b :: rest → initBuffer sess = Some b).
Proof.
  intros s p sess c q Hwf%reachable_wf Hp Hq Hc.
  assert (Hown : cleanupSession q = p).
  { destruct Hc as [Hc|Hc]; [|done].
    destruct (wf_owner _ Hwf _ _ _ Hp Hc) as (q0 & Hq0 & Hq0p). by simplify_eq. }
  subst p.
  assert (Hfirst : ∀ b rest, written q = b :: rest → initBuffer sess = Some b).
  { intros b rest Hw. by eapply wf_first. }
  split; [|done]. intros Hn.
  destruct (written q) as [|b rest]; [done|].
  specialize (Hfirst b rest eq_refl). congruence.
Qed.

Lemma no_bytes_before_resolution_witness :
  (initBuffer buffering_session = None → written (new_PassThrough 0) = []) ∧
  (∀ b rest, written (new_PassThrough 0) = b :: rest →
             initBuffer buffering_session = Some b).
Proof.
  apply (no_bytes_before_resolution
           (run initial [StartStream cam cam_url false; ProcSpawn 0; GetStreamData cam;
                         ProcStdout 0 chunk1])
           0%nat buffering_session 0%nat (new_PassThrough 0)).
  - by eexists.
  - reflexivity.
  - reflexivity.
  - left. by apply list_elem_of_singleton.
Defined.

(** ** C8 and C9: tearing a session down *)

(** After the registry entry [k] is deleted and the object that carried
    the identifier [k] is updated in place, [getAllSessions] lists no status
    with that identifier. *)
Lemma getAllSessions_after_delete s s' p sess x :
  wf s →
  objs s !! p = Some sess →
  objs s' = <[p := x]> (objs s) →
  sessions s' = JsMap.delete (id sess) (sessions s) →
  id x = id sess →
  ∀ st, st ∈ getAllSessions s' → st_id st ≠ id sess.
Proof.
  intros Hwf Hp Hobjs Hreg Hid st. unfold getAllSessions, JsMap.values.
  rewrite Hreg, Hobjs.
  intros (r & Hr & Hst)%list_elem_of_omap.
  apply list_elem_of_In, in_map_iff in Hr as ([k r'] & Hkr & Hin). simpl in Hkr. subst r'.
  apply list_elem_of_In, JsMap_elem_of_delete in Hin as [Hne Hin].
  destruct (wf_registry _ Hwf _ _ Hin) as (sr & Hsr & Hk).
  destruct (decide (p = r)) as [->|Hpr].
  - simplify_eq.
  - rewrite list_lookup_insert_ne, Hsr in Hst by done.
    simpl in Hst. simplify_eq. simpl. congruence.
Qed.

Lemma JsMap_elem_of_get {V} (k : string) (v : V) m :
  (k, v) ∈ m → is_Some (JsMap.get k m).
Proof.
  induction m as [|[k0 v0] m IH]; [by intros ?%elem_of_nil|].
  simpl. destruct (String.eqb k k0) eqn:E; [eauto|].
  intros [Heq|Hin]%elem_of_cons; [|auto].
  injection Heq as <- _. by rewrite String.eqb_refl in E.
Qed.

Lemma getSessionStatus_deleted k s :
  JsMap.get k (sessions s) = None → getSessionStatus k s = None.
Proof. intros H. unfold getSessionStatus, session_of. by rewrite H. Qed.

(** C8.  The 'close' handler of a process, from any reachable state and
    with no call of [stopStream] needed (nothing is killed): the session is
    marked inactive, every stream in [clients] is ended, [clients] is
    emptied, and the registry has no entry under the identifier of the
    session any longer, so neither [getSessionStatus] nor [getAllSessions]
    shows it. *)
Theorem process_close_tears_down :
  ∀ (s : RTSPService) (p : nat) (sess : StreamSession),
    reachable s →
    objs s !! p = Some sess →
    (∃ sess',
       objs (onClose p s) !! p = Some sess' ∧
       isActive sess' = false ∧ clients sess' = [] ∧ initTimer sess' = None) ∧
    (∀ c, c ∈ clients sess →
          ∃ q, streams (onClose p s) !! c = Some q ∧ writableEnded q = true) ∧
    JsMap.has (id sess) (sessions (onClose p s)) = false ∧
    getSessionStatus (id sess) (onClose p s) = None ∧
    (∀ st, st ∈ getAllSessions (onClose p s) → st_id st ≠ id sess) ∧
    killed (onClose p s) = killed s.
Proof.
  intros s p sess Hwf%reachable_wf Hp.
  assert (Hgone : JsMap.get (id sess) (sessions (onClose p s)) = None).
  { unfold onClose. rewrite Hp. apply JsMap_get_delete_eq. }
  split_and!.
  - unfold onClose. rewrite Hp. cbn [objs]. eexists.
    split; [apply list_lookup_insert_eq; by eapply lookup_lt_Some|done].
  - intros c Hc. destruct (wf_owner _ Hwf _ _ _ Hp Hc) as (q & Hq & _).
    destruct (endAll_lookup (clients sess) _ _ _ Hq) as (q' & Hq' & _ & _ & _ & _ & He).
    exists q'. unfold onClose. rewrite Hp. cbn [streams]. auto.
  - unfold JsMap.has. by rewrite Hgone.
  - by apply getSessionStatus_deleted.
  - eapply (getAllSessions_after_delete s _ p sess _ Hwf Hp);
      [unfold onClose; rewrite Hp; reflexivity..|done].
  - unfold onClose. by rewrite Hp.
Qed.

Lemma process_close_tears_down_witness :
  (∃ sess',
     objs (onClose 0 (run initial streaming_run)) !! 0%nat = Some sess' ∧
     isActive sess' = false ∧ clients sess' = [] ∧ initTimer sess' = None) ∧
  (∀ c, c ∈ [0%nat] →
        ∃ q, streams (onClose 0 (run initial streaming_run)) !! c = Some q ∧
             writableEnded q = true) ∧
  JsMap.has cam (sessions (onClose 0 (run initial streaming_run))) = false ∧
  getSessionStatus cam (onClose 0 (run initial streaming_run)) = None ∧
  (∀ st, st ∈ getAllSessions (onClose 0 (run initial streaming_run)) → st_id st ≠ cam) ∧
  killed (onClose 0 (run initial streaming_run)) = killed (run initial streaming_run).
Proof.
  apply (process_close_tears_down (run initial streaming_run) 0%nat streaming_session).
  - by eexists.
  - reflexivity.
Defined.

(** C9.  [stopStream] is a total function of the state; a second call with
    the same identifier changes nothing, after the first the identifier is
    not in the registry ([getSessionStatus] and [getAllSessions] do not show
    it) and the session object it named has no clients and is inactive; with
    an identifier the registry does not know, the state is returned as it
    is. *)
Theorem stopStream_idempotent_total :
  ∀ (s : RTSPService) (sessionId : string),
    reachable s →
    stopStream sessionId (stopStream sessionId s) = stopStream sessionId s ∧
    getSessionStatus sessionId (stopStream sessionId s) = None ∧
    (∀ st, st ∈ getAllSessions (stopStream sessionId s) → st_id st ≠ sessionId) ∧
    (∀ p, JsMap.get sessionId (sessions s) = Some p →
          ∃ sess', objs (stopStream sessionId s) !! p = Some sess' ∧
                   clients sess' = [] ∧ isActive sess' = false) ∧
    (JsMap.get sessionId (sessions s) = None → stopStream sessionId s = s).
Proof.
  intros s sessionId Hwf%reachable_wf.
  destruct (JsMap.get sessionId (sessions s)) as [p|] eqn:Hget.
  - destruct (wf_registry _ Hwf _ _ (JsMap_get_elem_of _ _ _ Hget)) as (sess & Hp & Hid).
    destruct (wf_process _ Hwf _ _ Hp) as [Hproc _].
    assert (Hgone : JsMap.get sessionId (sessions (stopStream sessionId s)) = None).
    { unfold stopStream. rewrite Hget, Hp, Hproc. apply JsMap_get_delete_eq. }
    split_and!.
    + unfold stopStream at 1. by rewrite Hgone.
    + by apply getSessionStatus_deleted.
    + subst sessionId.
      eapply (getAllSessions_after_delete s _ p sess _ Hwf Hp);
        [unfold stopStream; rewrite Hget, Hp, Hproc; reflexivity..|done].
    + intros p' [= <-]. unfold stopStream. rewrite Hget, Hp, Hproc. cbn [objs].
      eexists. split; [apply list_lookup_insert_eq; by eapply lookup_lt_Some|done].
    + done.
  - assert (Hsame : stopStream sessionId s = s).
    { unfold stopStream. by rewrite Hget. }
    rewrite !Hsame. split_and!; try done.
    + by apply getSessionStatus_deleted.
    + intros st. unfold getAllSessions, JsMap.values.
      intros (r & Hr & Hst)%list_elem_of_omap.
      apply list_elem_of_In, in_map_iff in Hr as ([k r'] & Hkr & Hin). simpl in Hkr. subst r'.
      apply list_elem_of_In in Hin.
      destruct (wf_registry _ Hwf _ _ Hin) as (sr & Hsr & Hk).
      rewrite Hsr in Hst. simpl in Hst. simplify_eq. simpl. intros Heq.
      pose proof (JsMap_elem_of_get _ _ _ Hin) as Hsome.
      rewrite Heq, Hget in Hsome. by destruct Hsome.
Qed.

Lemma stopStream_idempotent_total_witness :
  stopStream cam (stopStream cam (run initial streaming_run)) =
    stopStream cam (run initial streaming_run) ∧
  getSessionStatus cam (stopStream cam (run initial streaming_run)) = None ∧
  (∀ st, st ∈ getAllSessions (stopStream cam (run initial streaming_run)) →
         st_id st ≠ cam) ∧
  (∀ p, JsMap.get cam (sessions (run initial streaming_run)) = Some p →
        ∃ sess', objs (stopStream cam (run initial streaming_run)) !! p = Some sess' ∧
                 clients sess' = [] ∧ isActive sess' = false) ∧
  (JsMap.get cam (sessions (run initial streaming_run)) = None →
   stopStream cam (run initial streaming_run) = run initial streaming_run).
Proof.
  apply (stopStream_idempotent_total (run initial streaming_run) cam).
  by eexists.
Defined.

(** ** C10: [startStream] over a session that is not active *)



(** ** C3: [clientCount] against the size of [clients] *)

(** C3 (the code at the failing input).  After [double_emit_run] the second
    client is still in [clients], and [clientCount], also as reported by
    [getSessionStatus], is 0: the second event of the first client
    decremented the count again although the client was no longer in the
    set. *)
Lemma clientCount_undercounts_after_double_emit :
  ∃ sess,
    objs (run initial double_emit_run) !! 0%nat = Some sess ∧
    clients sess = [1%nat] ∧
    clientCount sess = 0 ∧
    getSessionStatus cam (run initial double_emit_run) =
      Some {| st_id := cam; st_isActive := true; st_clientCount := 0;
              st_rtspUrl := cam_url |}.
Proof. eexists. by split_and!. Qed.

(** * Further properties of the service *)

(** ** Invariants of the session objects *)

Lemma run_snoc s evs e : run s (evs ++ [e]) = step (run s evs) e.
Proof. unfold run. by rewrite foldl_app. Qed.

(** A property of session objects that holds of a new session and that no
    event breaks holds of every object of every reachable state. *)
Lemma reachable_session_ind (P : StreamSession → Prop) :
  (∀ sessionId rtspUrl p, P (new_session sessionId rtspUrl p)) →
  (∀ s e p sess sess',
     objs s !! p = Some sess → objs (step s e) !! p = Some sess' → P sess → P sess') →
  ∀ s, reachable s → ∀ p sess, objs s !! p = Some sess → P sess.
Proof.
  intros Hnew Hstep s [evs ->].
  induction evs as [|e evs IH] using rev_ind; intros p sess Hp; [done|].
  rewrite run_snoc in Hp.
  destruct (objs (run initial evs) !! p) as [sess0|] eqn:Hp0.
  - eapply Hstep; eauto.
  - destruct (step_new_object _ _ _ _ Hp Hp0) as (_ & sid & url & -> & _). apply Hnew.
Qed.

Lemma step_session_counts s e p sess sess' :
  objs s !! p = Some sess →
  objs (step s e) !! p = Some sess' →
  (0 ≤ clientCount sess → 0 ≤ clientCount sess') ∧
  (initBuffer sess = None ∨ preInitChunks sess = [] ∧ preInitSize sess = 0 →
   initBuffer sess' = None ∨ preInitChunks sess' = [] ∧ preInitSize sess' = 0).
Proof.
  intros Hp Hp'. revert Hp'.
  destruct e; cbn [step];
    unfold startStream, getStreamData, stopStream, onSpawn, onError, onClose,
      onData, onInitTimeout, cleanup;
    repeat case_match; cbn [fst snd objs streams]; intros Hp';
    try store_lookup_in Hp' p; rewrite ?Hp in *; simplify_eq; simpl in *;
    (split; [lia|]); try tauto; try (intros [?|[??]]; simplify_eq; by auto).
Qed.

(** X1.  The client count a session reports is never negative: [cleanup]
    clamps its decrement at zero and nothing else lowers the count. *)
Theorem clientCount_never_negative :
  ∀ (s : RTSPService) (sessionId : string) (st : SessionStatus),
    reachable s →
    getSessionStatus sessionId s = Some st →
    0 ≤ st_clientCount st.
Proof.
  intros s sessionId st Hreach. unfold getSessionStatus, session_of.
  destruct (JsMap.get sessionId (sessions s)) as [p|]; [|done].
  destruct (objs s !! p) as [sess|] eqn:Hp; [|done]. intros [= <-]. simpl.
  revert s Hreach p sess Hp.
  apply (reachable_session_ind (λ sess, 0 ≤ clientCount sess)); [done|].
  intros s e p sess sess' Hp Hp'. by apply (step_session_counts s e p).
Qed.

Lemma clientCount_never_negative_witness :
  0 ≤ st_clientCount
        {| st_id := cam; st_isActive := true; st_clientCount := 0;
           st_rtspUrl := cam_url |}.
Proof.
  apply (clientCount_never_negative (run initial double_emit_run) cam).
  - by eexists.
  - reflexivity.
Defined.

(** X2.  A resolved session holds no buffered chunk: from the moment
    [initBuffer] is set, [preInitChunks] is empty and [preInitSize] is 0, in
    every reachable state. *)
Theorem resolved_session_holds_no_buffer :
  ∀ (s : RTSPService) (p : nat) (sess : StreamSession),
    reachable s →
    objs s !! p = Some sess →
    is_Some (initBuffer sess) →
    preInitChunks sess = [] ∧ preInitSize sess = 0.
Proof.
  intros s p sess Hreach Hp [b Hb].
  assert (H : initBuffer sess = None ∨ preInitChunks sess = [] ∧ preInitSize sess = 0).
  { clear Hb. revert s Hreach p sess Hp.
    apply (reachable_session_ind
             (λ sess, initBuffer sess = None ∨
                      preInitChunks sess = [] ∧ preInitSize sess = 0)).
    - by left.
    - intros s e p sess sess' Hp Hp'. by apply (step_session_counts s e p). }
  destruct H as [H|H]; [congruence|done].
Qed.

Lemma resolved_session_holds_no_buffer_witness :
  preInitChunks streaming_session = [] ∧ preInitSize streaming_session = 0.
Proof.
  apply (resolved_session_holds_no_buffer (run initial streaming_run) 0%nat).
  - by eexists.
  - reflexivity.
  - by eexists.
Defined.

(** ** What a stream receives *)

(** X3.  A stream that was destroyed or ended is written nothing more,
    whatever happens afterwards. *)
Theorem closed_stream_receives_nothing_more :
  ∀ (s : RTSPService) (c : nat) (q : PassThrough) (evs : list Event),
    streams s !! c = Some q →
    live q = false →
    ∃ q', streams (run s evs) !! c = Some q' ∧
          written q' = written q ∧ live q' = false.
Proof.
  intros s c q evs. revert s q.
  induction evs as [|e evs IH]; intros s q Hq Hdead; [by exists q|].
  destruct (step_stream s e c q Hq) as (q1 & k & b & Hq1 & _ & Hlv & Hw & Hk).
  destruct k as [|k].
  - destruct (IH _ _ Hq1 (Hlv Hdead)) as (q' & Hq' & Hw' & Hl').
    exists q'. rewrite run_cons. split_and!; [done| |done].
    rewrite Hw', Hw. simpl. apply List.app_nil_r.
  - destruct (Hk ltac:(done)) as (_ & _ & _ & _ & Hlive & _). congruence.
Qed.

Lemma closed_stream_receives_nothing_more_witness :
  ∃ q', streams (run (onClose 0 (run initial streaming_run))
                   [ProcStdout 0 chunk3; InitTimeout 0]) !! 0%nat = Some q' ∧
        written q' = [chunk1 ++ chunk2] ∧ live q' = false.
Proof.
  apply (closed_stream_receives_nothing_more (onClose 0 (run initial streaming_run))
           0%nat
           {| destroyed := false; writableEnded := true;
              written := [chunk1 ++ chunk2]; cleanupSession := 0 |});
    reflexivity.
Defined.

(** X4.  On a resolved session, the chunks the process writes reach a live
    client in the order written, each exactly once, with nothing in
    between. *)
Theorem relay_preserves_order :
  ∀ (s : RTSPService) (p : nat) (sess : StreamSession) (c : nat) (q : PassThrough)
    (chunks : list Buffer),
    reachable s →
    objs s !! p = Some sess →
    is_Some (initBuffer sess) →
    c ∈ clients sess →
    streams s !! c = Some q →
    live q = true →
    ∃ q', streams (run s (ProcStdout p <$> chunks)) !! c = Some q' ∧
          written q' = written q ++ chunks ∧ live q' = true.
Proof.
  intros s p sess c q chunks Hwf%reachable_wf Hp Hb Hc.
  pose proof (wf_nodup _ Hwf _ _ Hp) as Hnd. clear Hwf.
  revert s q Hp. induction chunks as [|chunk chunks IH]; intros s q Hp Hq Hlive.
  - exists q. by rewrite List.app_nil_r.
  - destruct (relay_to_live_client s p chunk sess c q Hp Hb Hnd Hc Hq Hlive)
      as (q1 & Hq1 & Hl1 & Hw1).
    destruct (onData_relay s p chunk sess Hp Hb) as [Hobjs _].
    rewrite <- Hobjs in Hp.
    destruct (IH _ _ Hp Hq1 Hl1) as (q' & Hq' & Hw' & Hl').
    exists q'. rewrite fmap_cons, run_cons. cbn [step].
    split_and!; [done| |done]. by rewrite Hw', Hw1, <- app_assoc.
Qed.

Lemma relay_preserves_order_witness :
  ∃ q', streams (run (run initial streaming_run)
                   (ProcStdout 0 <$> [chunk3; chunk1; chunk3])) !! 0%nat = Some q' ∧
        written q' = [chunk1 ++ chunk2] ++ [chunk3; chunk1; chunk3] ∧ live q' = true.
Proof.
  apply (relay_preserves_order (run initial streaming_run) 0%nat streaming_session
           0%nat
           {| destroyed := false; writableEnded := false;
              written := [chunk1 ++ chunk2]; cleanupSession := 0 |}).
  - by eexists.
  - reflexivity.
  - by eexists.
  - by apply list_elem_of_singleton.
  - reflexivity.
  - reflexivity.
Defined.

(** ** Resolution by the timer *)

(** What the timer callback does on an unresolved session. *)
Lemma onInitTimeout_unresolved s p sess :
  objs s !! p = Some sess →
  initBuffer sess = None →
  ∃ sess',
    objs (onInitTimeout p s) !! p = Some sess' ∧
    clients sess' = clients sess ∧ initTimer sess' = None ∧
    if bool_decide (preInitChunks sess = [])
    then initBuffer sess' = None ∧ preInitChunks sess' = [] ∧
         streams (onInitTimeout p s) = streams s
    else initBuffer sess' = Some (Buffer_concat (preInitChunks sess)) ∧
         preInitChunks sess' = [] ∧
         streams (onInitTimeout p s) =
           writeAll (Buffer_concat (preInitChunks sess)) (clients sess) (streams s).
Proof.
  intros Hp Hn. unfold onInitTimeout. rewrite Hp, Hn.
  destruct (preInitChunks sess) as [|b l] eqn:Hchunks; cbn [objs streams];
    eexists; (split; [apply list_lookup_insert_eq; by eapply lookup_lt_Some|]);
    simpl; rewrite ?Hchunks; done.
Qed.

(** X5.  When the timer fires on a session that is still unresolved and
    whose process has written at least one chunk, [initBuffer] becomes the
    concatenation of all the chunks written so far, the buffer is released,
    the timer handle is cleared and that [initBuffer] is written to the
    clients. *)
Theorem timeout_promotes_buffered_chunks :
  ∀ (sessionId rtspUrl : string) (s0 s1 : RTSPService) (p : nat)
    (evs : list Event) (sess : StreamSession),
    startStream sessionId rtspUrl false s0 = (s1, Pending p) →
    objs (run s1 evs) !! p = Some sess →
    initBuffer sess = None →
    chunksOf p evs ≠ [] →
    ∃ sess',
      objs (step (run s1 evs) (InitTimeout p)) !! p = Some sess' ∧
      initBuffer sess' = Some (Buffer_concat (chunksOf p evs)) ∧
      preInitChunks sess' = [] ∧ initTimer sess' = None ∧
      streams (step (run s1 evs) (InitTimeout p)) =
        writeAll (Buffer_concat (chunksOf p evs)) (clients sess) (streams (run s1 evs)).
Proof.
  intros sessionId rtspUrl s0 s1 p evs sess Hstart Hp Hn Hne.
  destruct (fresh_session_history _ _ _ _ _ _ _ Hstart Hp Hn) as [Hchunks _].
  destruct (onInitTimeout_unresolved _ _ _ Hp Hn) as (sess' & Hp' & _ & Ht & Hif).
  rewrite Hchunks in Hif. rewrite bool_decide_eq_false_2 in Hif by done.
  destruct Hif as (Hinit & Hrel & Hst). exists sess'. cbn [step]. by split_and!.
Qed.

Lemma timeout_promotes_buffered_chunks_witness :
  ∃ sess',
    objs (step (run (fst (startStream cam cam_url false initial))
                  [ProcSpawn 0; GetStreamData cam; ProcStdout 0 chunk1])
            (InitTimeout 0)) !! 0%nat = Some sess' ∧
    initBuffer sess' = Some (Buffer_concat [chunk1]) ∧
    preInitChunks sess' = [] ∧ initTimer sess' = None ∧
    streams (step (run (fst (startStream cam cam_url false initial))
                     [ProcSpawn 0; GetStreamData cam; ProcStdout 0 chunk1])
               (InitTimeout 0)) =
      writeAll (Buffer_concat [chunk1]) [0%nat] [new_PassThrough 0].
Proof.
  apply (timeout_promotes_buffered_chunks cam cam_url initial
           (fst (startStream cam cam_url false initial)) 0%nat
           [ProcSpawn 0; GetStreamData cam; ProcStdout 0 chunk1] buffering_session);
    done.
Defined.

(** ** Detaching *)

Lemma cleanup_unattached s c q :
  wf s → streams s !! c = Some q → unattached c (cleanup c s).
Proof.
  intros Hwf Hq p sess' Hp'. unfold cleanup in Hp'. rewrite Hq in Hp'.
  destruct (wf_owner_exists _ Hwf _ _ Hq) as [sess0 Hp0]. rewrite Hp0 in Hp'.
  cbn [objs] in Hp'.
  destruct (decide (cleanupSession q = p)) as [<-|Hne].
  - rewrite list_lookup_insert_eq in Hp' by (by eapply lookup_lt_Some).
    simplify_eq. simpl. unfold Set_has, Set_delete.
    case_bool_decide as Hin; [|done].
    intros [Hneq _]%list_elem_of_filter. done.
  - rewrite list_lookup_insert_ne in Hp' by done.
    intros Hin. destruct (wf_owner _ Hwf _ _ _ Hp' Hin) as (q0 & Hq0 & Hown).
    by simplify_eq.
Qed.

Lemma step_unattached s e c q :
  streams s !! c = Some q →
  unattached c s →
  unattached c (step s e) ∧
  ∃ q', streams (step s e) !! c = Some q' ∧ written q' = written q.
Proof.
  intros Hq Hun. split.
  - intros p sess' Hp' Hin.
    destruct (objs s !! p) as [sess|] eqn:Hp.
    + destruct (step_clients _ _ _ _ _ _ Hp Hp' Hin) as [Hold|(-> & _)].
      * by apply (Hun _ _ Hp).
      * apply lookup_lt_Some in Hq. lia.
    + destruct (step_new_object _ _ _ _ Hp' Hp) as (_ & sid & url & -> & _).
      by apply elem_of_nil in Hin.
  - destruct (step_stream s e c q Hq) as (q' & k & b & Hq' & _ & _ & Hw & Hk).
    exists q'. split; [done|]. destruct k as [|k]; [by rewrite Hw, List.app_nil_r|].
    destruct (Hk ltac:(done)) as (p & sess & Hp & Hin & _).
    by destruct (Hun _ _ Hp).
Qed.

Lemma run_unattached evs s c q :
  streams s !! c = Some q →
  unattached c s →
  unattached c (run s evs) ∧
  ∃ q', streams (run s evs) !! c = Some q' ∧ written q' = written q.
Proof.
  revert s q. induction evs as [|e evs IH]; intros s q Hq Hun; [by eauto|].
  destruct (step_unattached s e c q Hq Hun) as (Hun1 & q1 & Hq1 & Hw1).
  destruct (IH _ _ Hq1 Hun1) as (Hun' & q' & Hq' & Hw').
  rewrite run_cons. split; [done|]. exists q'. split; [done|congruence].
Qed.

(** X6.  Detaching is final: once the [cleanup] closure of a client stream
    has run, the stream is in no [clients] set and is written nothing more,
    whatever happens afterwards. *)
Theorem detached_client_receives_nothing_more :
  ∀ (s : RTSPService) (c : nat) (q : PassThrough) (evs : list Event),
    reachable s →
    streams s !! c = Some q →
    unattached c (run (cleanup c s) evs) ∧
    ∃ q', streams (run (cleanup c s) evs) !! c = Some q' ∧ written q' = written q.
Proof.
  intros s c q evs Hwf%reachable_wf Hq.
  apply run_unattached; [|by eapply cleanup_unattached].
  unfold cleanup. rewrite Hq. by repeat case_match.
Qed.

Lemma detached_client_receives_nothing_more_witness :
  unattached 0 (run (cleanup 0 (run initial streaming_run))
                  [ProcStdout 0 chunk3; GetStreamData cam; ProcStdout 0 chunk1]) ∧
  ∃ q', streams (run (cleanup 0 (run initial streaming_run))
                   [ProcStdout 0 chunk3; GetStreamData cam; ProcStdout 0 chunk1])
          !! 0%nat = Some q' ∧
        written q' = [chunk1 ++ chunk2].
Proof.
  apply (detached_client_receives_nothing_more (run initial streaming_run) 0%nat
           {| destroyed := false; writableEnded := false;
              written := [chunk1 ++ chunk2]; cleanupSession := 0 |}).
  - by eexists.
  - reflexivity.
Defined.

(** ** Byte-exact delivery *)

Lemma Buffer_concat_snoc (l : list Buffer) b :
  Buffer_concat (l ++ [b]) = Buffer_concat l ++ b.
Proof. unfold Buffer_concat. rewrite concat_app. simpl. by rewrite List.app_nil_r. Qed.

Lemma resolution_to_live_client s b cs c q :
  NoDup cs → c ∈ cs → streams s !! c = Some q → live q = true → written q = [] →
  ∃ q', writeAll b cs (streams s) !! c = Some q' ∧ live q' = true ∧ written q' = [b].
Proof.
  intros Hnd Hc Hq Hlive Hw.
  destruct (writeAll_stream b cs _ _ _ Hq) as (q' & k & Hq' & _ & Hlv & Hw' & Hk & Hk').
  specialize (Hk' Hc Hlive). destruct (Hk Hk') as (_ & _ & Hone).
  rewrite (Hone Hnd), Hw in Hw'. exists q'. split_and!; [done|congruence|done].
Qed.

Lemma delivered_step s p c e every :
  isProcessOutput p e = true →
  delivered s p c every →
  delivered (step s e) p c (every ++ chunksOf p [e]).
Proof.
  intros He (sess & q & Hp & Hc & Hnd & Hq & Hlive & Hd).
  destruct e; simpl in He; try done; apply bool_decide_eq_true in He; subst p0;
    cbn [step chunksOf]; rewrite ?decide_True by done; rewrite ?List.app_nil_r.
  - (* a chunk *)
    destruct (initBuffer sess) as [init|] eqn:Hi.
    + destruct Hd as [Hhead Hcat].
      destruct (relay_to_live_client s p chunk sess c q Hp ltac:(by eexists) Hnd Hc Hq Hlive)
        as (q' & Hq' & Hl' & Hw').
      destruct (onData_relay s p chunk sess Hp ltac:(by eexists)) as [Hobjs _].
      exists sess, q'. rewrite Hobjs, Hi. split_and!; try done.
      * rewrite Hw'. by destruct (written q).
      * rewrite Hw', !Buffer_concat_snoc. by rewrite Hcat.
    + destruct Hd as [Hw Hchunks].
      destruct (onData_unresolved s p chunk sess Hp Hi) as (sess' & Hp' & Hcl & Hif).
      rewrite Hchunks in Hif.
      destruct (_ || _).
      * destruct Hif as (Hinit & _ & Hst).
        destruct (resolution_to_live_client s (Buffer_concat (every ++ [chunk]))
                    (clients sess) c q Hnd Hc Hq Hlive Hw) as (q' & Hq' & Hl' & Hw').
        exists sess', q'. rewrite Hcl, Hst, Hinit. split_and!; try done.
        -- by rewrite Hw'.
        -- rewrite Hw'. unfold Buffer_concat at 1. simpl. by rewrite List.app_nil_r.
      * destruct Hif as (Hinit & Hbuf & Hst).
        exists sess', q. rewrite Hcl, Hst, Hinit. by split_and!.
  - (* the timer *)
    destruct (initBuffer sess) as [init|] eqn:Hi.
    + exists sess, q. unfold onInitTimeout. rewrite Hp, Hi.
      destruct Hd. by split_and!.
    + destruct Hd as [Hw Hchunks].
      destruct (onInitTimeout_unresolved s p sess Hp Hi) as (sess' & Hp' & Hcl & _ & Hif).
      rewrite Hchunks in Hif. case_bool_decide as Hempty.
      * destruct Hif as (Hinit & Hbuf & Hst).
        exists sess', q. rewrite Hcl, Hst, Hinit. split_and!; try done. congruence.
      * destruct Hif as (Hinit & _ & Hst).
        destruct (resolution_to_live_client s (Buffer_concat every)
                    (clients sess) c q Hnd Hc Hq Hlive Hw) as (q' & Hq' & Hl' & Hw').
        exists sess', q'. rewrite Hcl, Hst, Hinit. split_and!; try done.
        -- by rewrite Hw'.
        -- rewrite Hw'. unfold Buffer_concat at 1. simpl. by rewrite List.app_nil_r.
Qed.

Lemma delivered_run evs s p c every :
  forallb (isProcessOutput p) evs = true →
  delivered s p c every →
  delivered (run s evs) p c (every ++ chunksOf p evs).
Proof.
  revert s every. induction evs as [|e evs IH]; intros s every Hall Hd.
  - simpl. by rewrite List.app_nil_r.
  - simpl in Hall. apply andb_true_iff in Hall as [He Hall].
    rewrite run_cons, chunksOf_cons, app_assoc.
    by apply IH, delivered_step.
Qed.

(** X7.  A live client attached to a session before it is resolved loses
    and repeats no byte: while the process writes chunks and the timer may
    fire, in any order, the client holds nothing as long as the session is
    unresolved, and from the resolution on it holds [initBuffer] first and,
    concatenated, exactly the bytes of all the chunks the process has
    written. *)
Theorem early_client_receives_every_byte :
  ∀ (s : RTSPService) (p : nat) (sess : StreamSession) (c : nat) (q : PassThrough)
    (evs : list Event),
    reachable s →
    objs s !! p = Some sess →
    initBuffer sess = None →
    c ∈ clients sess →
    streams s !! c = Some q →
    live q = true →
    forallb (isProcessOutput p) evs = true →
    ∃ sess' q',
      objs (run s evs) !! p = Some sess' ∧
      streams (run s evs) !! c = Some q' ∧
      match initBuffer sess' with
      | None => written q' = []
      | Some init =>
          head (written q') = Some init ∧
          Buffer_concat (written q') =
            Buffer_concat (preInitChunks sess ++ chunksOf p evs)
      end.
Proof.
  intros s p sess c q evs Hwf%reachable_wf Hp Hn Hc Hq Hlive Hall.
  assert (Hd : delivered s p c (preInitChunks sess)).
  { exists sess, q. rewrite Hn. split_and!; try done.
    - by eapply wf_nodup.
    - destruct (wf_owner _ Hwf _ _ _ Hp Hc) as (q0 & Hq0 & Hown). simplify_eq.
      destruct (written q) as [|b rest] eqn:Hw; [done|].
      pose proof (wf_first _ Hwf _ _ _ _ _ Hq Hp Hw). congruence. }
  destruct (delivered_run evs s p c _ Hall Hd)
    as (sess' & q' & Hp' & _ & _ & Hq' & _ & Hd').
  exists sess', q'. split_and!; try done.
  destruct (initBuffer sess'); [done|]. by destruct Hd'.
Qed.

Lemma early_client_receives_every_byte_witness :
  ∃ sess' q',
    objs (run (run initial [StartStream cam cam_url false; ProcSpawn 0;
                            GetStreamData cam; ProcStdout 0 chunk1])
            [InitTimeout 0; ProcStdout 0 chunk2; ProcStdout 0 chunk3]) !! 0%nat
      = Some sess' ∧
    streams (run (run initial [StartStream cam cam_url false; ProcSpawn 0;
                               GetStreamData cam; ProcStdout 0 chunk1])
               [InitTimeout 0; ProcStdout 0 chunk2; ProcStdout 0 chunk3]) !! 0%nat
      = Some q' ∧
    match initBuffer sess' with
    | None => written q' = []
    | Some init =>
        head (written q') = Some init ∧
        Buffer_concat (written q') =
          Buffer_concat (preInitChunks buffering_session ++
                         chunksOf 0 [InitTimeout 0; ProcStdout 0 chunk2;
                                     ProcStdout 0 chunk3])
    end.
Proof.
  apply (early_client_receives_every_byte
           (run initial [StartStream cam cam_url false; ProcSpawn 0;
                         GetStreamData cam; ProcStdout 0 chunk1])
           0%nat buffering_session 0%nat (new_PassThrough 0)).
  - by eexists.
  - reflexivity.
  - reflexivity.
  - by apply list_elem_of_singleton.
  - reflexivity.
  - reflexivity.
  - reflexivity.
Defined.

(** ** How the operations compose *)

(** X8.  Starting a session, letting its process spawn and starting the same
    identifier again resolves at once and changes nothing: no second process
    is spawned, whatever URL the second call carries. *)
Theorem startStream_twice_spawns_once :
  ∀ (sessionId rtspUrl rtspUrl' : string) (throws : bool) (s0 s1 : RTSPService)
    (p : nat),
    startStream sessionId rtspUrl false s0 = (s1, Pending p) →
    startStream sessionId rtspUrl' throws (onSpawn p s1) = (onSpawn p s1, ResolvedEarly).
Proof.
  intros sessionId rtspUrl rtspUrl' throws s0 s1 p
    (_ & Hnew & _ & Hget & _)%startStream_Pending.
  unfold startStream, existingActive, onSpawn. rewrite Hnew. cbn [sessions objs].
  rewrite Hget, list_lookup_insert_eq by (by eapply lookup_lt_Some). done.
Qed.

Lemma startStream_twice_spawns_once_witness :
  startStream cam "rtsp://other/2" true
    (onSpawn 0 (fst (startStream cam cam_url false initial))) =
  (onSpawn 0 (fst (startStream cam cam_url false initial)), ResolvedEarly).
Proof.
  apply (startStream_twice_spawns_once cam cam_url "rtsp://other/2" true initial
           (fst (startStream cam cam_url false initial)) 0%nat).
  reflexivity.
Defined.

(** X9.  The 'error' handler of a process only marks its session inactive
    and emits 'stream-error' for the session's identifier: the state it
    leaves is the state it found with [isActive] of this session set to
    false and that one event added, so the session stays in the registry,
    its [clientCount], [clients], buffer, [initBuffer] and [initTimer] are as
    before, every other session object is untouched, its clients are neither
    ended nor written to and nothing is killed.  The session is then
    reported as not active, and [getStreamData] on it returns null and
    changes nothing. *)
Theorem process_error_keeps_session_registered :
  ∀ (s : RTSPService) (sessionId : string) (p : nat),
    reachable s →
    JsMap.get sessionId (sessions s) = Some p →
    (∃ sess,
       objs s !! p = Some sess ∧
       onError p s =
         {| sessions := sessions s;
            objs := <[p := {| id := sessionId; rtspUrl := rtspUrl sess;
                              process := process sess; source := source sess;
                              isActive := false;
                              clientCount := clientCount sess;
                              clients := clients sess;
                              preInitChunks := preInitChunks sess;
                              preInitSize := preInitSize sess;
                              initBuffer := initBuffer sess;
                              initTimer := initTimer sess |}]> (objs s);
            streams := streams s;
            killed := killed s;
            emitted := emitted s ++ [("stream-error"%string, sessionId)] |} ∧
       getSessionStatus sessionId (onError p s) =
         Some {| st_id := sessionId; st_isActive := false;
                 st_clientCount := clientCount sess;
                 st_rtspUrl := rtspUrl sess |}) ∧
    (∃ st, getSessionStatus sessionId (onError p s) = Some st ∧
           st_id st = sessionId ∧ st_isActive st = false) ∧
    getStreamData sessionId (onError p s) = (onError p s, None) ∧
    sessions (onError p s) = sessions s ∧
    streams (onError p s) = streams s ∧
    killed (onError p s) = killed s.
Proof.
  intros s sessionId p Hwf%reachable_wf Hget.
  destruct (wf_registry _ Hwf _ _ (JsMap_get_elem_of _ _ _ Hget)) as (sess & Hp & Hid).
  destruct (wf_process _ Hwf _ _ Hp) as [_ Hsrc].
  assert (Hlt := lookup_lt_Some _ _ _ Hp).
  split.
  { exists sess. split; [done|].
    unfold getSessionStatus, session_of, onError.
    rewrite Hp. cbn [sessions objs]. rewrite Hget.
    rewrite list_lookup_insert_eq by done. rewrite Hid. done. }
  unfold getSessionStatus, session_of, getStreamData, onError.
  rewrite Hp. cbn [sessions objs streams killed]. rewrite Hget.
  rewrite list_lookup_insert_eq by done. cbn [source isActive negb]. rewrite Hsrc.
  split_and!; try done. by eexists.
Qed.

Lemma process_error_keeps_session_registered_witness :
  (∃ sess,
     objs (run initial streaming_run) !! 0%nat = Some sess ∧
     onError 0 (run initial streaming_run) =
       {| sessions := sessions (run initial streaming_run);
          objs := <[0%nat := {| id := cam; rtspUrl := rtspUrl sess;
                                process := process sess; source := source sess;
                                isActive := false;
                                clientCount := clientCount sess;
                                clients := clients sess;
                                preInitChunks := preInitChunks sess;
                                preInitSize := preInitSize sess;
                                initBuffer := initBuffer sess;
                                initTimer := initTimer sess |}]>
                    (objs (run initial streaming_run));
          streams := streams (run initial streaming_run);
          killed := killed (run initial streaming_run);
          emitted := emitted (run initial streaming_run) ++
                     [("stream-error"%string, cam)] |} ∧
     getSessionStatus cam (onError 0 (run initial streaming_run)) =
       Some {| st_id := cam; st_isActive := false;
               st_clientCount := clientCount sess;
               st_rtspUrl := rtspUrl sess |}) ∧
  (∃ st, getSessionStatus cam (onError 0 (run initial streaming_run)) = Some st ∧
         st_id st = cam ∧ st_isActive st = false) ∧
  getStreamData cam (onError 0 (run initial streaming_run)) =
    (onError 0 (run initial streaming_run), None) ∧
  sessions (onError 0 (run initial streaming_run)) = sessions (run initial streaming_run) ∧
  streams (onError 0 (run initial streaming_run)) = streams (run initial streaming_run) ∧
  killed (onError 0 (run initial streaming_run)) = killed (run initial streaming_run).
Proof.
  apply (process_error_keeps_session_registered (run initial streaming_run) cam 0%nat).
  - by eexists.
  - reflexivity.
Defined.

(** X10.  When [startStream] has replaced a session that was not active,
    the 'close' event of the replaced process deletes the registry entry of
    the identifier, which by then names the new session: the new session
    object is still there and its process was never killed, but status,
    [getStreamData] and [stopStream] no longer find it. *)
Theorem close_of_replaced_process_unregisters_replacement :
  ∀ (s : RTSPService) (sessionId rtspUrl : string) (p : nat) (old : StreamSession),
    reachable s →
    JsMap.get sessionId (sessions s) = Some p →
    objs s !! p = Some old →
    isActive old = false →
    getSessionStatus sessionId
      (onClose p (fst (startStream sessionId rtspUrl false s))) = None ∧
    getStreamData sessionId (onClose p (fst (startStream sessionId rtspUrl false s))) =
      (onClose p (fst (startStream sessionId rtspUrl false s)), None) ∧
    stopStream sessionId (onClose p (fst (startStream sessionId rtspUrl false s))) =
      onClose p (fst (startStream sessionId rtspUrl false s)) ∧
    objs (onClose p (fst (startStream sessionId rtspUrl false s))) !! length (objs s) =
      Some (new_session sessionId rtspUrl (length (objs s))) ∧
    killed (onClose p (fst (startStream sessionId rtspUrl false s))) = killed s.
Proof.
  intros s sessionId rtspUrl p old Hwf%reachable_wf Hget Hp Hinactive.
  destruct (wf_registry _ Hwf _ _ (JsMap_get_elem_of _ _ _ Hget)) as (sess & Hp0 & Hid).
  simplify_eq.
  assert (Hlt := lookup_lt_Some _ _ _ Hp).
  assert (Hguard : existingActive (id old) s = false).
  { unfold existingActive. by rewrite Hget, Hp. }
  unfold startStream. rewrite Hguard. cbn [fst].
  assert (Hgone : ∀ m x st k em,
            JsMap.get (id old)
              (sessions (onClose p {| sessions := m; objs := objs s ++ [x];
                                      streams := st; killed := k; emitted := em |}))
            = None).
  { intros. unfold onClose. cbn [objs].
    rewrite (lookup_app_l_Some _ _ _ _ Hp). apply JsMap_get_delete_eq. }
  split_and!.
  - apply getSessionStatus_deleted, Hgone.
  - unfold getStreamData. by rewrite Hgone.
  - unfold stopStream. by rewrite Hgone.
  - unfold onClose. cbn [objs]. rewrite (lookup_app_l_Some _ _ _ _ Hp). cbn [objs].
    rewrite list_lookup_insert_ne by lia. by apply list_lookup_middle.
  - unfold onClose. cbn [objs]. by rewrite (lookup_app_l_Some _ _ _ _ Hp).
Qed.

Lemma close_of_replaced_process_unregisters_replacement_witness :
  getSessionStatus cam
    (onClose 0 (fst (startStream cam cam_url false
                       (run initial [StartStream cam cam_url false])))) = None ∧
  getStreamData cam
    (onClose 0 (fst (startStream cam cam_url false
                       (run initial [StartStream cam cam_url false])))) =
    (onClose 0 (fst (startStream cam cam_url false
                       (run initial [StartStream cam cam_url false]))), None) ∧
  stopStream cam
    (onClose 0 (fst (startStream cam cam_url false
                       (run initial [StartStream cam cam_url false])))) =
    onClose 0 (fst (startStream cam cam_url false
                      (run initial [StartStream cam cam_url false]))) ∧
  objs (onClose 0 (fst (startStream cam cam_url false
                          (run initial [StartStream cam cam_url false])))) !! 1%nat =
    Some (new_session cam cam_url 1) ∧
  killed (onClose 0 (fst (startStream cam cam_url false
                            (run initial [StartStream cam cam_url false])))) = [].
Proof.
  apply (close_of_replaced_process_unregisters_replacement
           (run initial [StartStream cam cam_url false]) cam cam_url 0%nat
           (new_session cam cam_url 0)).
  - by eexists.
  - reflexivity.
  - reflexivity.
  - reflexivity.
Defined.

Lemma JsMap_delete_delete {V} (k : string) (m : list (string * V)) :
  JsMap.delete k (JsMap.delete k m) = JsMap.delete k m.
Proof.
  induction m as [|[k0 v0] m IH]; simpl; [done|].
  destruct (String.eqb k k0) eqn:E; [done|]. simpl. by rewrite E, IH.
Qed.

(** X11.  The 'close' event that a process emits after [stopStream] killed
    it finds nothing left to tear down: registry, session objects, client
    streams and kills stay as [stopStream] left them, and the handler only
    emits 'stream-ended'. *)
Theorem close_after_stop_changes_nothing :
  ∀ (s : RTSPService) (sessionId : string) (p : nat),
    reachable s →
    JsMap.get sessionId (sessions s) = Some p →
    sessions (onClose p (stopStream sessionId s)) = sessions (stopStream sessionId s) ∧
    objs (onClose p (stopStream sessionId s)) = objs (stopStream sessionId s) ∧
    streams (onClose p (stopStream sessionId s)) = streams (stopStream sessionId s) ∧
    killed (onClose p (stopStream sessionId s)) = killed s ++ [p] ∧
    emitted (onClose p (stopStream sessionId s)) =
      emitted s ++ [("stream-stopped"%string, sessionId); ("stream-ended"%string, sessionId)].
Proof.
  intros s sessionId p Hwf%reachable_wf Hget.
  destruct (wf_registry _ Hwf _ _ (JsMap_get_elem_of _ _ _ Hget)) as (sess & Hp & Hid).
  destruct (wf_process _ Hwf _ _ Hp) as [Hproc _].
  assert (Hlt := lookup_lt_Some _ _ _ Hp).
  unfold stopStream. rewrite Hget, Hp, Hproc.
  unfold onClose. cbn [objs]. rewrite list_lookup_insert_eq by done.
  cbn [sessions objs streams killed emitted id rtspUrl process source clientCount
       clients preInitChunks preInitSize initBuffer endAll foldl].
  rewrite Hid, JsMap_delete_delete, list_insert_insert_eq, <- app_assoc.
  by split_and!.
Qed.

Lemma close_after_stop_changes_nothing_witness :
  sessions (onClose 0 (stopStream cam (run initial streaming_run))) =
    sessions (stopStream cam (run initial streaming_run)) ∧
  objs (onClose 0 (stopStream cam (run initial streaming_run))) =
    objs (stopStream cam (run initial streaming_run)) ∧
  streams (onClose 0 (stopStream cam (run initial streaming_run))) =
    streams (stopStream cam (run initial streaming_run)) ∧
  killed (onClose 0 (stopStream cam (run initial streaming_run))) =
    killed (run initial streaming_run) ++ [0%nat] ∧
  emitted (onClose 0 (stopStream cam (run initial streaming_run))) =
    emitted (run initial streaming_run) ++
      [("stream-stopped"%string, cam); ("stream-ended"%string, cam)].
Proof.
  apply (close_after_stop_changes_nothing (run initial streaming_run) cam 0%nat).
  - by eexists.
  - reflexivity.
Defined.

(** ** The registry and what it lists *)

Lemma JsMap_set_fresh {V} (k : string) (v : V) m :
  JsMap.get k m = None → JsMap.set k v m = m ++ [(k, v)].
Proof.
  induction m as [|[k0 v0] m IH]; simpl; [done|].
  destruct (String.eqb k k0); [done|]. intros H. by rewrite IH.
Qed.

Lemma JsMap_set_keys {V} (k : string) (v : V) m :
  is_Some (JsMap.get k m) → (JsMap.set k v m).*1 = m.*1.
Proof.
  induction m as [|[k0 v0] m IH]; csimpl; [by intros [? ?]|].
  destruct (String.eqb k k0) eqn:E; csimpl.
  - apply String.eqb_eq in E. by subst.
  - intros H. by rewrite IH.
Qed.

Lemma JsMap_delete_keys {V} (k : string) (m : list (string * V)) :
  (JsMap.delete k m).*1 = filter (λ k', k' ≠ k) m.*1.
Proof.
  induction m as [|[k0 v0] m IH]; csimpl; [done|].
  destruct (String.eqb k k0) eqn:E.
  - apply String.eqb_eq in E. subst k0. rewrite filter_cons_False by naive_solver. done.
  - apply String.eqb_neq in E. rewrite filter_cons_True by naive_solver.
    csimpl. by rewrite IH.
Qed.

Lemma JsMap_get_None_keys {V} (k : string) (m : list (string * V)) :
  JsMap.get k m = None → k ∉ m.*1.
Proof.
  induction m as [|[k0 v0] m IH]; csimpl; [intros _; apply not_elem_of_nil|].
  destruct (String.eqb k k0) eqn:E; [done|]. apply String.eqb_neq in E.
  intros H [?|?]%elem_of_cons; [done|]. by apply IH.
Qed.

(** No identifier is registered twice. *)
Lemma registry_keys_NoDup s : reachable s → NoDup (sessions s).*1.
Proof.
  intros [evs ->]. induction evs as [|e evs IH] using rev_ind.
  - apply NoDup_nil_2.
  - rewrite run_snoc. revert IH. generalize (run initial evs). intros s IH.
    destruct e; cbn [step];
      unfold startStream, getStreamData, stopStream, onSpawn, onError, onClose,
        onData, onInitTimeout, cleanup;
      repeat case_match; cbn [fst snd sessions]; try done.
    + destruct (JsMap.get sessionId (sessions s)) as [r|] eqn:Hget.
      * rewrite JsMap_set_keys by eauto. done.
      * rewrite JsMap_set_fresh, fmap_app by done. apply NoDup_app.
        split_and!; [done| |apply NoDup_singleton].
        intros k Hk ->%list_elem_of_singleton.
        by apply (JsMap_get_None_keys _ _ Hget).
    + rewrite JsMap_delete_keys. by apply NoDup_filter.
    + rewrite JsMap_delete_keys. by apply NoDup_filter.
Qed.

Lemma JsMap_get_unique {V} (k : string) (v : V) m :
  NoDup m.*1 → (k, v) ∈ m → JsMap.get k m = Some v.
Proof.
  induction m as [|[k0 v0] m IH]; csimpl; [by intros _ ?%elem_of_nil|].
  intros [Hnot Hnd]%NoDup_cons [Heq|Hin]%elem_of_cons.
  - injection Heq as -> ->. by rewrite String.eqb_refl.
  - destruct (String.eqb k k0) eqn:E; [|by apply IH].
    apply String.eqb_eq in E. subst k0. destruct Hnot.
    apply list_elem_of_fmap. by exists (k, v).
Qed.

(** In a reachable state every registered reference names an object, so
    [getAllSessions] has one status per registry entry. *)
Lemma getAllSessions_ids s :
  wf s → st_id <$> getAllSessions s = (sessions s).*1.
Proof.
  intros Hwf. unfold getAllSessions, JsMap.values.
  assert (Hall : ∀ k p, (k, p) ∈ sessions s →
            ∃ sess, objs s !! p = Some sess ∧ id sess = k) by apply Hwf.
  revert Hall. generalize (sessions s). intros m.
  induction m as [|[k p] m IH]; intros Hall; [done|].
  destruct (Hall k p) as (sess & Hp & Hid); [apply elem_of_cons; by left|].
  cbn [map snd omap list_omap]. rewrite Hp. csimpl. rewrite Hid. f_equal.
  apply IH. intros k' p' Hin. apply Hall. apply elem_of_cons. by right.
Qed.

(** X12.  What [getAllSessions] lists is the registry: the identifiers
    listed are the registered ones, in the order of the registry, and none
    is listed twice. *)
Theorem getAllSessions_lists_registry_once :
  ∀ (s : RTSPService),
    reachable s →
    st_id <$> getAllSessions s = (sessions s).*1 ∧
    NoDup (st_id <$> getAllSessions s).
Proof.
  intros s Hreach.
  rewrite (getAllSessions_ids s (reachable_wf _ Hreach)).
  split; [done|]. by apply registry_keys_NoDup.
Qed.

Lemma getAllSessions_lists_registry_once_witness :
  st_id <$> getAllSessions (run initial streaming_run) =
    (sessions (run initial streaming_run)).*1 ∧
  NoDup (st_id <$> getAllSessions (run initial streaming_run)).
Proof.
  apply (getAllSessions_lists_registry_once (run initial streaming_run)).
  by eexists.
Defined.

(** X13.  [getSessionStatus] and [getAllSessions] agree: the status
    returned for an identifier is the one listed under that identifier, and
    a status listed under an identifier is the one [getSessionStatus]
    returns for it. *)
Theorem status_agrees_with_list :
  ∀ (s : RTSPService) (sessionId : string) (st : SessionStatus),
    reachable s →
    getSessionStatus sessionId s = Some st ↔
    st ∈ getAllSessions s ∧ st_id st = sessionId.
Proof.
  intros s sessionId st Hreach.
  pose proof (reachable_wf _ Hreach) as Hwf.
  pose proof (registry_keys_NoDup _ Hreach) as Hnd.
  unfold getSessionStatus, session_of, getAllSessions, JsMap.values. split.
  - destruct (JsMap.get sessionId (sessions s)) as [p|] eqn:Hget; [|done].
    destruct (objs s !! p) as [sess|] eqn:Hp; [|done]. intros [= <-].
    pose proof (JsMap_get_elem_of _ _ _ Hget) as Hin.
    destruct (wf_registry _ Hwf _ _ Hin) as (sess0 & Hp0 & Hid). simplify_eq.
    split; [|done]. apply list_elem_of_omap. exists p. rewrite Hp. split; [|done].
    apply list_elem_of_In, in_map_iff. exists (id sess, p).
    split; [done|]. by apply list_elem_of_In.
  - intros [(r & Hr & Hst)%list_elem_of_omap Hid].
    apply list_elem_of_In, in_map_iff in Hr as ([k r'] & Hkr & Hin).
    simpl in Hkr. subst r'. apply list_elem_of_In in Hin.
    destruct (wf_registry _ Hwf _ _ Hin) as (sr & Hsr & Hk).
    rewrite Hsr in Hst. simpl in Hst. simplify_eq. simpl.
    by rewrite (JsMap_get_unique _ _ _ Hnd Hin), Hsr.
Qed.

Lemma status_agrees_with_list_witness :
  getSessionStatus cam (run initial streaming_run) = Some (status_of streaming_session) ↔
  status_of streaming_session ∈ getAllSessions (run initial streaming_run) ∧
  st_id (status_of streaming_session) = cam.
Proof.
  apply (status_agrees_with_list (run initial streaming_run) cam
           (status_of streaming_session)).
  by eexists.
Defined.

(** X14.  Starting a session under an identifier that is not registered
    adds it at the end of what [getAllSessions] lists, as not active and
    with no client; the sessions listed before are listed unchanged. *)
Theorem new_session_is_listed_last :
  ∀ (s : RTSPService) (sessionId rtspUrl : string),
    reachable s →
    JsMap.get sessionId (sessions s) = None →
    getAllSessions (fst (startStream sessionId rtspUrl false s)) =
      getAllSessions s ++
      [{| st_id := sessionId; st_isActive := false; st_clientCount := 0;
          st_rtspUrl := rtspUrl |}].
Proof.
  intros s sessionId rtspUrl Hwf%reachable_wf Hget.
  unfold startStream, existingActive. rewrite Hget. cbn [fst].
  unfold getAllSessions, JsMap.values. cbn [sessions objs].
  rewrite JsMap_set_fresh, map_app, omap_app by done. f_equal.
  - assert (Hall : ∀ k p, (k, p) ∈ sessions s → is_Some (objs s !! p)).
    { intros k p Hin. destruct (wf_registry _ Hwf _ _ Hin) as (sess & Hp & _). eauto. }
    revert Hall. generalize (sessions s). intros m.
    induction m as [|[k p] m IH]; intros Hall; [done|].
    destruct (Hall k p) as [sess Hp]; [apply elem_of_cons; by left|].
    cbn [map snd omap list_omap].
    rewrite (lookup_app_l_Some _ _ _ _ Hp), Hp. csimpl. f_equal.
    apply IH. intros k' p' Hin. apply (Hall k'). apply elem_of_cons. by right.
  - cbn [map snd omap list_omap]. by rewrite list_lookup_middle.
Qed.

Lemma new_session_is_listed_last_witness :
  getAllSessions (fst (startStream "door" "rtsp://door/1" false
                         (run initial streaming_run))) =
    getAllSessions (run initial streaming_run) ++
    [{| st_id := "door"; st_isActive := false; st_clientCount := 0;
        st_rtspUrl := "rtsp://door/1" |}].
Proof.
  apply (new_session_is_listed_last (run initial streaming_run) "door" "rtsp://door/1").
  - by eexists.
  - reflexivity.
Defined.

(** ** Attaching *)

(** X15.  [getStreamData] hands out a stream exactly when [getSessionStatus]
    reports the session as active; the stream is a new one, in [clients],
    and the count goes up by one; when it returns null it has changed
    nothing. *)
Theorem getStreamData_succeeds_iff_active :
  ∀ (s : RTSPService) (sessionId : string),
    reachable s →
    (is_Some (snd (getStreamData sessionId s)) ↔
     ∃ st, getSessionStatus sessionId s = Some st ∧ st_isActive st = true) ∧
    (snd (getStreamData sessionId s) = None → fst (getStreamData sessionId s) = s) ∧
    (∀ client st,
       snd (getStreamData sessionId s) = Some client →
       getSessionStatus sessionId s = Some st →
       client = length (streams s) ∧
       getSessionStatus sessionId (fst (getStreamData sessionId s)) =
         Some {| st_id := st_id st; st_isActive := true;
                 st_clientCount := st_clientCount st + 1;
                 st_rtspUrl := st_rtspUrl st |} ∧
       ∃ sess', session_of sessionId (fst (getStreamData sessionId s)) = Some sess' ∧
                client ∈ clients sess').
Proof.
  intros s sessionId Hwf%reachable_wf.
  unfold getStreamData, getSessionStatus, session_of.
  destruct (JsMap.get sessionId (sessions s)) as [p|] eqn:Hget; cbn [fst snd].
  2: { split_and!; try done. split; [by intros [? ?]|by intros (? & ? & ?)]. }
  destruct (wf_registry _ Hwf _ _ (JsMap_get_elem_of _ _ _ Hget)) as (sess & Hp & Hid).
  destruct (wf_process _ Hwf _ _ Hp) as [_ Hsrc].
  assert (Hlt := lookup_lt_Some _ _ _ Hp).
  rewrite Hp, Hsrc. destruct (isActive sess) eqn:Hact; cbn [negb fst snd].
  - split_and!; try done.
    + split; [|by eauto]. intros _. eexists. split; [done|]. done.
    + intros client st [= <-] [= <-]. cbn [sessions objs]. rewrite Hget.
      rewrite list_lookup_insert_eq by done. simpl. split_and!; try done.
      eexists. split; [done|]. simpl. apply Set_add_here.
  - split_and!; try done.
    split; [by intros [? ?]|]. intros (st & [= <-] & Hst). simpl in Hst. congruence.
Qed.

Lemma getStreamData_succeeds_iff_active_witness :
  (is_Some (snd (getStreamData cam (run initial streaming_run))) ↔
   ∃ st, getSessionStatus cam (run initial streaming_run) = Some st ∧
         st_isActive st = true) ∧
  (snd (getStreamData cam (run initial streaming_run)) = None →
   fst (getStreamData cam (run initial streaming_run)) = run initial streaming_run) ∧
  (∀ client st,
     snd (getStreamData cam (run initial streaming_run)) = Some client →
     getSessionStatus cam (run initial streaming_run) = Some st →
     client = length (streams (run initial streaming_run)) ∧
     getSessionStatus cam (fst (getStreamData cam (run initial streaming_run))) =
       Some {| st_id := st_id st; st_isActive := true;
               st_clientCount := st_clientCount st + 1;
               st_rtspUrl := st_rtspUrl st |} ∧
     ∃ sess', session_of cam (fst (getStreamData cam (run initial streaming_run)))
                = Some sess' ∧
              client ∈ clients sess').
Proof.
  apply (getStreamData_succeeds_iff_active (run initial streaming_run) cam).
  by eexists.
Defined.

(** ** Sessions do not disturb each other *)

Lemma writeAll_other b cs (st : list PassThrough) c :
  c ∉ cs → writeAll b cs st !! c = st !! c.
Proof.
  revert st. induction cs as [|c0 cs IH]; intros st Hc; [done|].
  apply not_elem_of_cons in Hc as [Hne Hc].
  unfold writeAll in *. simpl. rewrite IH by done.
  unfold writeIfLive. destruct (st !! c0) as [q0|]; [|done].
  destruct (destroyed q0); [done|]. by rewrite list_lookup_insert_ne.
Qed.

Lemma endAll_other cs (st : list PassThrough) c :
  c ∉ cs → endAll cs st !! c = st !! c.
Proof.
  revert st. induction cs as [|c0 cs IH]; intros st Hc; [done|].
  apply not_elem_of_cons in Hc as [Hne Hc].
  unfold endAll in *. simpl. rewrite IH by done.
  unfold endOne. destruct (st !! c0) as [q0|]; [|done].
  by rewrite list_lookup_insert_ne.
Qed.

(** X16.  No event of a process or of its timer (spawn, error, close, a
    chunk on stdout, the timer callback) touches another session: the
    session object of any other process and every client stream of such a
    session are exactly as before. *)
Theorem process_events_leave_other_sessions_alone :
  ∀ (s : RTSPService) (e : Event) (p0 p : nat) (sess : StreamSession),
    reachable s →
    isProcessEvent p0 e = true →
    p ≠ p0 →
    objs s !! p = Some sess →
    objs (step s e) !! p = Some sess ∧
    (∀ c q, streams s !! c = Some q → cleanupSession q = p →
            streams (step s e) !! c = Some q).
Proof.
  intros s e p0 p sess Hwf%reachable_wf He Hne Hp.
  assert (Hnot : ∀ sess0 c q, objs s !! p0 = Some sess0 → streams s !! c = Some q →
            cleanupSession q = p → c ∉ clients sess0).
  { intros sess0 c q Hp0 Hq Hown Hin.
    destruct (wf_owner _ Hwf _ _ _ Hp0 Hin) as (q0 & Hq0 & Hown0). by simplify_eq. }
  destruct e; simpl in He; try done; apply bool_decide_eq_true in He; subst p1;
    cbn [step]; unfold onSpawn, onError, onClose, onData, onInitTimeout;
    destruct (objs s !! p0) as [sess0|] eqn:Hp0; try done;
    repeat case_match; cbn [objs streams];
    rewrite ?list_lookup_insert_ne by done; (split; [done|]);
    intros c q Hq Hown; rewrite ?writeAll_other, ?endAll_other by eauto; done.
Qed.

Lemma process_events_leave_other_sessions_alone_witness :
  objs (step (run initial two_sessions_run) (ProcStdout 0 chunk2)) !! 1%nat =
    Some {| id := "door"; rtspUrl := "rtsp://door/1"; process := Some 1%nat;
            source := Some 1%nat; isActive := true; clientCount := 1;
            clients := [0%nat]; preInitChunks := []; preInitSize := 0;
            initBuffer := None; initTimer := Some 1%nat |} ∧
  (∀ c q, streams (run initial two_sessions_run) !! c = Some q →
          cleanupSession q = 1%nat →
          streams (step (run initial two_sessions_run) (ProcStdout 0 chunk2)) !! c
            = Some q).
Proof.
  apply (process_events_leave_other_sessions_alone (run initial two_sessions_run)
           (ProcStdout 0 chunk2) 0%nat 1%nat).
  - by eexists.
  - reflexivity.
  - done.
  - reflexivity.
Defined.

(** * The server around the service (server/index.ts) *)

(** ** The idle check *)

(** X17.  The idle check that runs after the [cleanup] of a client stream
    of an active session stops that session exactly when the count was at
    most one before the [cleanup]: the process is killed and the session is
    no longer registered; with a count of two or more the check does
    nothing. *)
Theorem idle_check_stops_session_after_last_cleanup :
  ∀ (s : RTSPService) (sessionId : string) (p : nat) (sess : StreamSession)
    (c : nat) (q : PassThrough),
    reachable s →
    JsMap.get sessionId (sessions s) = Some p →
    objs s !! p = Some sess →
    isActive sess = true →
    streams s !! c = Some q →
    cleanupSession q = p →
    (clientCount sess ≤ 1 →
     getSessionStatus sessionId (maybeStopSessionIfIdle sessionId (cleanup c s)) = None ∧
     killed (maybeStopSessionIfIdle sessionId (cleanup c s)) = killed s ++ [p]) ∧
    (2 ≤ clientCount sess →
     maybeStopSessionIfIdle sessionId (cleanup c s) = cleanup c s).
Proof.
  intros s sessionId p sess c q Hwf%reachable_wf Hget Hp Hact Hq Hown.
  destruct (wf_process _ Hwf _ _ Hp) as [Hproc _].
  assert (Hlt := lookup_lt_Some _ _ _ Hp).
  unfold maybeStopSessionIfIdle, getSessionStatus, session_of, cleanup.
  rewrite Hq, Hown, Hp. cbn [sessions objs]. rewrite Hget.
  rewrite list_lookup_insert_eq by done.
  cbn [status_of st_isActive st_clientCount isActive clientCount]. rewrite Hact.
  cbn [andb]. split; intros Hcount.
  - rewrite (proj2 (Z.eqb_eq _ _)) by lia.
    unfold stopStream. cbn [sessions objs]. rewrite Hget.
    rewrite list_lookup_insert_eq by done. cbn [process]. rewrite Hproc.
    cbn [sessions objs killed]. by rewrite JsMap_get_delete_eq.
  - by rewrite (proj2 (Z.eqb_neq _ _)) by lia.
Qed.

Lemma idle_check_stops_session_after_last_cleanup_witness :
  (clientCount streaming_session ≤ 1 →
   getSessionStatus cam
     (maybeStopSessionIfIdle cam (cleanup 0 (run initial streaming_run))) = None ∧
   killed (maybeStopSessionIfIdle cam (cleanup 0 (run initial streaming_run))) =
     killed (run initial streaming_run) ++ [0%nat]) ∧
  (2 ≤ clientCount streaming_session →
   maybeStopSessionIfIdle cam (cleanup 0 (run initial streaming_run)) =
   cleanup 0 (run initial streaming_run)).
Proof.
  apply (idle_check_stops_session_after_last_cleanup (run initial streaming_run) cam
           0%nat streaming_session 0%nat
           {| destroyed := false; writableEnded := false;
              written := [chunk1 ++ chunk2]; cleanupSession := 0 |}).
  - by eexists.
  - reflexivity.
  - reflexivity.
  - reflexivity.
  - reflexivity.
  - reflexivity.
Defined.

(** ** Stream keys *)

Lemma String_app_cons x (a b : string) : String x a +:+ b = String x (a +:+ b).
Proof. done. Qed.

Lemma String_app_nil (b : string) : "" +:+ b = b.
Proof. done. Qed.

Lemma String_length_app (a b : string) :
  String.length (a +:+ b) = (String.length a + String.length b)%nat.
Proof.
  induction a as [|x a IH]; [done|]. rewrite String_app_cons. simpl. by rewrite IH.
Qed.

Lemma String_app_assoc (a b c : string) : (a +:+ b) +:+ c = a +:+ b +:+ c.
Proof.
  induction a as [|x a IH]; [done|]. rewrite !String_app_cons. by rewrite IH.
Qed.

Lemma String_substring_app (a b : string) :
  String.substring 0 (String.length a) (a +:+ b) = a.
Proof.
  induction a as [|x a IH].
  - rewrite String_app_nil. by destruct b.
  - rewrite String_app_cons. simpl. by rewrite IH.
Qed.

Lemma String_prefix_refl (a : string) : String.prefix a a = true.
Proof.
  induction a as [|x a IH]; simpl; [done|].
  destruct (Ascii.ascii_dec x x); [done|congruence].
Qed.

Lemma String_prefix_app (a b : string) : String.prefix a (a +:+ b) = true.
Proof.
  induction a as [|x a IH]; [by destruct b|]. rewrite String_app_cons. simpl.
  destruct (Ascii.ascii_dec x x); [done|congruence].
Qed.

Lemma String_includes_prefix (x key : string) :
  String.prefix x key = true → String_includes x key = true.
Proof. destruct key; simpl; [done|]. by intros ->. Qed.

Lemma String_includes_app (a x : string) : String_includes x (a +:+ x) = true.
Proof.
  induction a as [|y a IH].
  - apply String_includes_prefix, String_prefix_refl.
  - rewrite String_app_cons. simpl. rewrite IH. apply orb_true_r.
Qed.

Lemma streamKey_includes sessionId socketId :
  String_includes socketId (streamKey sessionId socketId) = true.
Proof. unfold streamKey. rewrite <- String_app_assoc. apply String_includes_app. Qed.

Lemma streamKey_startsWith sessionId socketId :
  String_startsWith (sessionId +:+ "-") (streamKey sessionId socketId) = true.
Proof.
  unfold String_startsWith, streamKey. rewrite <- String_app_assoc.
  apply String_prefix_app.
Qed.

Lemma sessionIdOfKey_streamKey sessionId socketId :
  sessionIdOfKey (streamKey sessionId socketId) socketId = sessionId.
Proof.
  unfold streamKey, sessionIdOfKey, String_slice.
  rewrite !String_length_app. simpl String.length.
  replace (0 <? 0) with false by done.
  case_match eqn:Hneg; [|apply Z.ltb_ge in Hneg; lia].
  rewrite Z.min_l by lia. rewrite Z.max_l by lia.
  replace (Z.to_nat 0) with 0%nat by done.
  replace (Z.to_nat _) with (String.length sessionId) by lia.
  apply String_substring_app.
Qed.

(** X18.  The key under which a socket's stream is filed can be taken apart
    again: the 'disconnect' handler recognises every key built from the
    socket's id and recovers from it the session identifier the key was
    built from, and the stop endpoint recognises it by the session's
    prefix. *)
Theorem streamKey_round_trip :
  ∀ (sessionId socketId : string),
    String_includes socketId (streamKey sessionId socketId) = true ∧
    sessionIdOfKey (streamKey sessionId socketId) socketId = sessionId ∧
    String_startsWith (sessionId +:+ "-") (streamKey sessionId socketId) = true.
Proof.
  intros sessionId socketId. split_and!.
  - apply streamKey_includes.
  - apply sessionIdOfKey_streamKey.
  - apply streamKey_startsWith.
Qed.

(** ** Releasing the streams of a socket or of a session *)

Lemma JsMap_elem_of_delete_iff {V} (k k' : string) (v : V) m :
  (k', v) ∈ JsMap.delete k m ↔ k' ≠ k ∧ (k', v) ∈ m.
Proof.
  split; [apply JsMap_elem_of_delete|]. intros [Hne Hin].
  induction m as [|[k0 v0] m IH]; simpl; [done|].
  apply elem_of_cons in Hin as [Heq|Hin].
  - injection Heq as <- <-.
    destruct (String.eqb k k') eqn:E; [apply String.eqb_eq in E; congruence|].
    apply elem_of_cons. by left.
  - destruct (String.eqb k k0); [by apply IH|]. apply elem_of_cons. right. by apply IH.
Qed.

Lemma JsMap_get_None_iff {V} (k : string) (m : list (string * V)) :
  JsMap.get k m = None ↔ ∀ v, (k, v) ∉ m.
Proof.
  split.
  - intros Hget v Hin. apply JsMap_elem_of_get in Hin as [? ?]. congruence.
  - intros Hno. destruct (JsMap.get k m) as [v|] eqn:Hget; [|done].
    by destruct (Hno v (JsMap_get_elem_of _ _ _ Hget)).
Qed.

Lemma deleteAll_elem_of {V} (ks : list string) (m : list (string * V)) k v :
  (k, v) ∈ foldl (λ m key, JsMap.delete key m) m ks ↔ (k, v) ∈ m ∧ k ∉ ks.
Proof.
  revert m. induction ks as [|k0 ks IH]; intros m; simpl.
  - split; [intros ?; split; [done|apply not_elem_of_nil]|by intros [? _]].
  - rewrite IH, JsMap_elem_of_delete_iff, not_elem_of_cons. tauto.
Qed.

(** Deleting from a map the keys of its entries that satisfy [hit] leaves
    the entries that do not. *)
Lemma deleteAll_hits {V} (hit : string → bool) (m : list (string * V)) k v :
  (k, v) ∈ foldl (λ m key, JsMap.delete key m) m
             (filter (λ kc, hit kc.1 = true) m).*1 ↔
  (k, v) ∈ m ∧ hit k = false.
Proof.
  rewrite deleteAll_elem_of. split; intros [Hin Hk]; (split; [done|]).
  - destruct (hit k) eqn:Hhit; [|done]. destruct Hk.
    apply list_elem_of_fmap. exists (k, v). split; [done|].
    by apply list_elem_of_filter.
  - intros ([k' v'] & -> & [Hhit _]%list_elem_of_filter)%list_elem_of_fmap.
    simpl in *. congruence.
Qed.

Lemma deleteAll_hits_get {V} (hit : string → bool) (m : list (string * V)) k :
  hit k = true →
  JsMap.get k (foldl (λ m key, JsMap.delete key m) m
                 (filter (λ kc, hit kc.1 = true) m).*1) = None.
Proof.
  intros Hhit. apply JsMap_get_None_iff. intros v [_ ?]%deleteAll_hits. congruence.
Qed.

(** Destroying streams touches nothing but their [destroyed] flag. *)
Lemma destroyAll_service cs svc :
  sessions (foldl destroyStream svc cs) = sessions svc ∧
  objs (foldl destroyStream svc cs) = objs svc ∧
  killed (foldl destroyStream svc cs) = killed svc.
Proof.
  revert svc. induction cs as [|c cs IH]; intros svc; [done|]. simpl.
  destruct (IH (destroyStream svc c)) as (-> & -> & ->).
  unfold destroyStream. cbn [step]. by destruct (streams svc !! c).
Qed.

Lemma destroyAll_lookup cs svc c q :
  streams svc !! c = Some q →
  ∃ q', streams (foldl destroyStream svc cs) !! c = Some q' ∧
        written q' = written q ∧ cleanupSession q' = cleanupSession q ∧
        (destroyed q = true → destroyed q' = true) ∧
        (c ∈ cs → destroyed q' = true).
Proof.
  revert svc q. induction cs as [|c0 cs IH]; intros svc q Hq.
  - exists q. split_and!; try done. by intros ?%elem_of_nil.
  - simpl.
    assert (H1 : ∃ q1, streams (destroyStream svc c0) !! c = Some q1 ∧
              written q1 = written q ∧ cleanupSession q1 = cleanupSession q ∧
              (destroyed q = true → destroyed q1 = true) ∧
              (c0 = c → destroyed q1 = true)).
    { unfold destroyStream. cbn [step]. destruct (decide (c0 = c)) as [->|Hne].
      - rewrite Hq. cbn [streams]. exists (destroy q).
        split; [apply list_lookup_insert_eq; by eapply lookup_lt_Some|done].
      - exists q. destruct (streams svc !! c0); cbn [streams];
          rewrite ?list_lookup_insert_ne by done; by split_and!. }
    destruct H1 as (q1 & Hq1 & Hw1 & Hc1 & Hd1 & Hhere).
    destruct (IH _ _ Hq1) as (q' & Hq' & Hw' & Hc' & Hd' & Hin').
    exists q'. split_and!; [done|congruence|congruence|by auto|].
    intros [->|Hin]%elem_of_cons; auto.
Qed.

Lemma StringSet_addAll_elem_of (f : string → string) (ks acc : list string) x :
  x ∈ foldl (λ acc key, StringSet_add (f key) acc) acc ks ↔
  x ∈ acc ∨ ∃ key, key ∈ ks ∧ f key = x.
Proof.
  revert acc. induction ks as [|k0 ks IH]; intros acc; simpl.
  - split; [by left|]. intros [?|(? & ?%elem_of_nil & _)]; done.
  - rewrite IH. unfold StringSet_add. setoid_rewrite elem_of_cons.
    case_bool_decide as Hin.
    + split; [intros [?|(key & ? & ?)]; eauto|].
      intros [?|(key & [ -> |?] & <-)]; eauto.
    + rewrite elem_of_app, list_elem_of_singleton.
      split; [intros [[?| ->]|(key & ? & ?)]; eauto|].
      intros [?|(key & [ -> |?] & <-)]; eauto.
Qed.

(** X19.  When a socket disconnects, every entry of [activeStreams] whose
    key contains the socket's id is removed and its stream destroyed (with
    what it had received untouched), the other entries stay; in particular
    no key built from the socket's id is left, and each session the socket
    was watching gets an idle check.  The registry and the session objects
    of the service are not touched. *)
Theorem disconnect_releases_streams_of_socket :
  ∀ (sv : Server) (socketId : string),
    (∀ key c, (key, c) ∈ activeStreams (onDisconnect socketId sv) ↔
              (key, c) ∈ activeStreams sv ∧ String_includes socketId key = false) ∧
    (∀ sessionId,
       JsMap.get (streamKey sessionId socketId)
         (activeStreams (onDisconnect socketId sv)) = None) ∧
    (∀ key c q,
       (key, c) ∈ activeStreams sv → String_includes socketId key = true →
       streams (rtspService sv) !! c = Some q →
       ∃ q', streams (rtspService (onDisconnect socketId sv)) !! c = Some q' ∧
             destroyed q' = true ∧ written q' = written q) ∧
    (∀ sessionId c,
       (streamKey sessionId socketId, c) ∈ activeStreams sv →
       sessionId ∈ idleChecks (onDisconnect socketId sv)) ∧
    sessions (rtspService (onDisconnect socketId sv)) = sessions (rtspService sv) ∧
    objs (rtspService (onDisconnect socketId sv)) = objs (rtspService sv).
Proof.
  intros sv socketId. unfold onDisconnect. cbn [activeStreams rtspService idleChecks].
  split_and!.
  - intros key c. apply (deleteAll_hits (String_includes socketId)).
  - intros sessionId. apply (deleteAll_hits_get (String_includes socketId)).
    apply streamKey_includes.
  - intros key c q Hin Hhit Hq.
    destruct (destroyAll_lookup
                (filter (λ kc, String_includes socketId kc.1 = true) (activeStreams sv)).*2
                _ _ _ Hq) as (q' & Hq' & Hw & _ & _ & Hd).
    exists q'. split_and!; [done| |done]. apply Hd.
    apply list_elem_of_fmap. exists (key, c). split; [done|].
    by apply list_elem_of_filter.
  - intros sessionId c Hin. apply elem_of_app. right.
    apply StringSet_addAll_elem_of. right. exists (streamKey sessionId socketId).
    split; [|apply sessionIdOfKey_streamKey].
    apply list_elem_of_fmap. exists (streamKey sessionId socketId, c). split; [done|].
    apply list_elem_of_filter. split; [apply streamKey_includes|done].
  - apply destroyAll_service.
  - apply destroyAll_service.
Qed.

Lemma stopStream_stream sessionId svc c q :
  streams svc !! c = Some q →
  ∃ q0, streams (stopStream sessionId svc) !! c = Some q0 ∧ written q0 = written q.
Proof.
  intros Hq. unfold stopStream.
  destruct (JsMap.get sessionId (sessions svc)) as [p|]; [|by eauto].
  destruct (objs svc !! p) as [sess|]; [|by eauto].
  destruct (process sess); [|by eauto]. cbn [streams].
  destruct (endAll_lookup (clients sess) _ _ _ Hq) as (q' & Hq' & _ & Hw & _). eauto.
Qed.

(** X20.  The stop endpoint leaves nothing of the session behind: the
    session is no longer registered, every entry of [activeStreams] whose
    key starts with the identifier and a dash is removed and its stream
    destroyed, and the other entries stay; no key built from the identifier
    is left, whatever the socket. *)
Theorem apiStop_releases_streams_of_session :
  ∀ (sv : Server) (sessionId : string),
    reachable (rtspService sv) →
    getSessionStatus sessionId (rtspService (apiStop sessionId sv)) = None ∧
    (∀ key c, (key, c) ∈ activeStreams (apiStop sessionId sv) ↔
              (key, c) ∈ activeStreams sv ∧
              String_startsWith (sessionId +:+ "-") key = false) ∧
    (∀ socketId,
       JsMap.get (streamKey sessionId socketId)
         (activeStreams (apiStop sessionId sv)) = None) ∧
    (∀ key c q,
       (key, c) ∈ activeStreams sv →
       String_startsWith (sessionId +:+ "-") key = true →
       streams (rtspService sv) !! c = Some q →
       ∃ q', streams (rtspService (apiStop sessionId sv)) !! c = Some q' ∧
             destroyed q' = true ∧ written q' = written q).
Proof.
  intros sv sessionId Hwf%reachable_wf. unfold apiStop. cbn [activeStreams rtspService].
  split_and!.
  - unfold getSessionStatus, session_of.
    destruct (destroyAll_service
                (filter (λ kc, String_startsWith (sessionId +:+ "-") kc.1 = true)
                   (activeStreams sv)).*2
                (stopStream sessionId (rtspService sv))) as (-> & _ & _).
    assert (Hgone : JsMap.get sessionId (sessions (stopStream sessionId (rtspService sv)))
                    = None).
    { unfold stopStream.
      destruct (JsMap.get sessionId (sessions (rtspService sv))) as [p|] eqn:Hget; [|done].
      destruct (wf_registry _ Hwf _ _ (JsMap_get_elem_of _ _ _ Hget)) as (sess & Hp & _).
      destruct (wf_process _ Hwf _ _ Hp) as [Hproc _].
      rewrite Hp, Hproc. apply JsMap_get_delete_eq. }
    by rewrite Hgone.
  - intros key c. apply (deleteAll_hits (String_startsWith (sessionId +:+ "-"))).
  - intros socketId. apply (deleteAll_hits_get (String_startsWith (sessionId +:+ "-"))).
    apply streamKey_startsWith.
  - intros key c q Hin Hhit Hq.
    pose proof (stopStream_stream sessionId _ _ _ Hq) as Hq0.
    destruct Hq0 as (q0 & Hq0 & Hw0).
    destruct (destroyAll_lookup
                (filter (λ kc, String_startsWith (sessionId +:+ "-") kc.1 = true)
                   (activeStreams sv)).*2
                _ _ _ Hq0) as (q' & Hq' & Hw & _ & _ & Hd).
    exists q'. split_and!; [done| |congruence]. apply Hd.
    apply list_elem_of_fmap. exists (key, c). split; [done|].
    by apply list_elem_of_filter.
Qed.

Lemma watching_server_reachable : reachable (rtspService watching_server).
Proof.
  exists [StartStream cam cam_url false; ProcSpawn 0; ProcStdout 0 chunk2;
          StartStream "door" "rtsp://door/1" false; ProcSpawn 1;
          GetStreamData cam; GetStreamData "door"].
  reflexivity.
Qed.

Lemma apiStop_releases_streams_of_session_witness :
  getSessionStatus cam (rtspService (apiStop cam watching_server)) = None ∧
  (∀ key c, (key, c) ∈ activeStreams (apiStop cam watching_server) ↔
            (key, c) ∈ activeStreams watching_server ∧
            String_startsWith (cam +:+ "-") key = false) ∧
  (∀ socketId,
     JsMap.get (streamKey cam socketId) (activeStreams (apiStop cam watching_server))
       = None) ∧
  (∀ key c q,
     (key, c) ∈ activeStreams watching_server →
     String_startsWith (cam +:+ "-") key = true →
     streams (rtspService watching_server) !! c = Some q →
     ∃ q', streams (rtspService (apiStop cam watching_server)) !! c = Some q' ∧
           destroyed q' = true ∧ written q' = written q).
Proof.
  apply (apiStop_releases_streams_of_session watching_server cam).
  apply watching_server_reachable.
Defined.

(** ** Watching and unwatching *)

Lemma getStreamData_active s sessionId p sess :
  wf s →
  JsMap.get sessionId (sessions s) = Some p →
  objs s !! p = Some sess →
  isActive sess = true →
  ∃ s', getStreamData sessionId s = (s', Some (length (streams s))) ∧
        ∃ st, getSessionStatus sessionId s' = Some st ∧ st_isActive st = true.
Proof.
  intros Hwf Hget Hp Hact.
  destruct (wf_process _ Hwf _ _ Hp) as [_ Hsrc].
  assert (Hlt := lookup_lt_Some _ _ _ Hp).
  unfold getStreamData. rewrite Hget, Hp, Hsrc, Hact. cbn [negb].
  eexists. split; [done|]. unfold getSessionStatus, session_of. cbn [sessions objs].
  rewrite Hget, list_lookup_insert_eq by done. eexists. split; [done|]. done.
Qed.

(** X21.  A socket that watches a session it is already watching is turned
    away: the first watch files the new stream under the socket's key, and
    a second one right after only sends 'Already watching this stream'; it
    creates no stream and changes neither the service nor the
    bookkeeping. *)
Theorem second_watch_is_rejected :
  ∀ (sv : Server) (socketId sessionId : string) (st : SessionStatus),
    reachable (rtspService sv) →
    getSessionStatus sessionId (rtspService sv) = Some st →
    st_isActive st = true →
    JsMap.has (streamKey sessionId socketId) (activeStreams sv) = false →
    JsMap.get (streamKey sessionId socketId)
      (activeStreams (onWatch socketId sessionId sv)) =
      Some (length (streams (rtspService sv))) ∧
    onWatch socketId sessionId (onWatch socketId sessionId sv) =
      {| rtspService := rtspService (onWatch socketId sessionId sv);
         activeStreams := activeStreams (onWatch socketId sessionId sv);
         unwatchListeners := unwatchListeners (onWatch socketId sessionId sv);
         idleChecks := idleChecks (onWatch socketId sessionId sv);
         sent := sent (onWatch socketId sessionId sv) ++
                 [(socketId, StreamError "Already watching this stream")] |}.
Proof.
  intros sv socketId sessionId st Hwf%reachable_wf Hst Hact Hfree.
  assert (Hsess : ∃ p sess, JsMap.get sessionId (sessions (rtspService sv)) = Some p ∧
            objs (rtspService sv) !! p = Some sess ∧ isActive sess = true).
  { revert Hst. unfold getSessionStatus, session_of.
    destruct (JsMap.get sessionId _) as [p|] eqn:Hget; [|done].
    destruct (objs _ !! p) as [sess|] eqn:Hp; [|done]. intros [= <-].
    by exists p, sess. }
  destruct Hsess as (p & sess & Hget & Hp & Hactive).
  destruct (getStreamData_active _ _ _ _ Hwf Hget Hp Hactive)
    as (svc' & Hattach & st' & Hst' & Hact').
  assert (Hfirst : onWatch socketId sessionId sv =
            {| rtspService := svc';
               activeStreams :=
                 JsMap.set (streamKey sessionId socketId)
                   (length (streams (rtspService sv))) (activeStreams sv);
               unwatchListeners :=
                 unwatchListeners sv ++
                   [(socketId, (streamKey sessionId socketId, sessionId))];
               idleChecks := idleChecks sv;
               sent := sent sv ++
                 match getInitSegment sessionId svc' with
                 | Some init => [(socketId, StreamInit init)]
                 | None => []
                 end ++ [(socketId, StreamReady sessionId)] |}).
  { unfold onWatch. by rewrite Hst, Hact, Hfree, Hattach. }
  rewrite Hfirst. cbn [activeStreams rtspService unwatchListeners idleChecks sent].
  split; [apply JsMap_get_set_eq|].
  unfold onWatch. cbn [rtspService activeStreams]. rewrite Hst', Hact'. cbn [negb].
  unfold JsMap.has. by rewrite JsMap_get_set_eq.
Qed.

Lemma second_watch_is_rejected_witness :
  JsMap.get (streamKey cam "sockB")
    (activeStreams (onWatch "sockB" cam watching_server)) =
    Some (length (streams (rtspService watching_server))) ∧
  onWatch "sockB" cam (onWatch "sockB" cam watching_server) =
    {| rtspService := rtspService (onWatch "sockB" cam watching_server);
       activeStreams := activeStreams (onWatch "sockB" cam watching_server);
       unwatchListeners := unwatchListeners (onWatch "sockB" cam watching_server);
       idleChecks := idleChecks (onWatch "sockB" cam watching_server);
       sent := sent (onWatch "sockB" cam watching_server) ++
               [("sockB"%string, StreamError "Already watching this stream")] |}.
Proof.
  apply (second_watch_is_rejected watching_server "sockB" cam
           {| st_id := cam; st_isActive := true; st_clientCount := 1;
              st_rtspUrl := cam_url |}).
  - apply watching_server_reachable.
  - reflexivity.
  - reflexivity.
  - reflexivity.
Defined.

Lemma JsMap_get_delete_ne {V} (k k' : string) (m : list (string * V)) :
  k ≠ k' → JsMap.get k' (JsMap.delete k m) = JsMap.get k' m.
Proof.
  intros Hne. induction m as [|[k0 v0] m IH]; simpl; [done|].
  destruct (String.eqb k k0) eqn:E.
  - apply String.eqb_eq in E. subst k0.
    destruct (String.eqb k' k) eqn:E'; [|done].
    apply String.eqb_eq in E'. congruence.
  - simpl. by rewrite IH.
Qed.

(** What the listeners of one 'stream:unwatch' event do, one after the
    other, to the entries of [activeStreams] and to the streams. *)
Lemma unwatchAll_spec socketId (cl : list (string * string)) sv :
  (∀ key, key ∈ cl.*1 →
          JsMap.get key (activeStreams (foldl (unwatchOne socketId) sv cl)) = None) ∧
  (∀ key, key ∉ cl.*1 →
          JsMap.get key (activeStreams (foldl (unwatchOne socketId) sv cl)) =
          JsMap.get key (activeStreams sv)) ∧
  (∀ c q, streams (rtspService sv) !! c = Some q →
          ∃ q', streams (rtspService (foldl (unwatchOne socketId) sv cl)) !! c = Some q' ∧
                written q' = written q ∧ (destroyed q = true → destroyed q' = true)) ∧
  (∀ key c q, key ∈ cl.*1 → JsMap.get key (activeStreams sv) = Some c →
              streams (rtspService sv) !! c = Some q →
              ∃ q', streams (rtspService (foldl (unwatchOne socketId) sv cl)) !! c
                      = Some q' ∧ destroyed q' = true) ∧
  idleChecks (foldl (unwatchOne socketId) sv cl) = idleChecks sv ++ cl.*2 ∧
  sessions (rtspService (foldl (unwatchOne socketId) sv cl)) = sessions (rtspService sv) ∧
  objs (rtspService (foldl (unwatchOne socketId) sv cl)) = objs (rtspService sv).
Proof.
  revert sv. induction cl as [|[k0 sid0] cl IH]; intros sv.
  - simpl. rewrite List.app_nil_r. split_and!; try done.
    + by intros key ?%elem_of_nil.
    + intros c q Hq. by exists q.
    + by intros key c q ?%elem_of_nil.
  - cbn [foldl fmap list_fmap fst snd].
    set (sv1 := unwatchOne socketId sv (k0, sid0)).
    destruct (IH sv1) as (Hgone & Hkeep & Hstr & Hdes & Hidle & Hsess & Hobjs). clear IH.
    assert (Hget1 : ∀ key, JsMap.get key (activeStreams sv1) =
              if decide (key = k0) then None else JsMap.get key (activeStreams sv)).
    { intros key. unfold sv1, unwatchOne, JsMap.has. cbn [activeStreams].
      destruct (decide (key = k0)) as [->|Hne].
      - destruct (JsMap.get k0 (activeStreams sv)) eqn:E; [apply JsMap_get_delete_eq|done].
      - destruct (JsMap.get k0 (activeStreams sv)); [|done].
        by apply JsMap_get_delete_ne. }
    assert (Hstr1 : ∀ c q, streams (rtspService sv) !! c = Some q →
              ∃ q1, streams (rtspService sv1) !! c = Some q1 ∧ written q1 = written q ∧
                    (destroyed q = true → destroyed q1 = true) ∧
                    (JsMap.get k0 (activeStreams sv) = Some c → destroyed q1 = true)).
    { intros c q Hq. unfold sv1, unwatchOne. cbn [rtspService].
      destruct (JsMap.get k0 (activeStreams sv)) as [c0|].
      - destruct (destroyAll_lookup [c0] _ _ _ Hq) as (q1 & Hq1 & Hw1 & _ & Hd1 & Hin1).
        exists q1. split_and!; try done. intros [= ->]. apply Hin1.
        by apply list_elem_of_singleton.
      - exists q. by split_and!. }
    split_and!.
    + intros key [->|Hin]%elem_of_cons.
      * destruct (decide (k0 ∈ cl.*1)) as [Hin|Hnin]; [by apply Hgone|].
        rewrite Hkeep, Hget1 by done. by rewrite decide_True.
      * by apply Hgone.
    + intros key [Hne Hnin]%not_elem_of_cons.
      rewrite Hkeep, Hget1 by done. by rewrite decide_False.
    + intros c q Hq. destruct (Hstr1 c q Hq) as (q1 & Hq1 & Hw1 & Hd1 & _).
      destruct (Hstr c q1 Hq1) as (q' & Hq' & Hw' & Hd').
      exists q'. split_and!; [done|congruence|auto].
    + intros key c q Hin Hget Hq.
      destruct (Hstr1 c q Hq) as (q1 & Hq1 & Hw1 & Hd1 & Hhere).
      destruct (decide (key = k0)) as [->|Hne].
      * destruct (Hstr c q1 Hq1) as (q' & Hq' & _ & Hd'). exists q'. auto.
      * apply elem_of_cons in Hin as [?|Hin]; [done|].
        apply (Hdes key c q1 Hin); [|done]. rewrite Hget1. by rewrite decide_False.
    + rewrite Hidle. unfold sv1, unwatchOne. cbn [idleChecks]. by rewrite <- app_assoc.
    + rewrite Hsess. unfold sv1, unwatchOne. cbn [rtspService].
      destruct (JsMap.get k0 (activeStreams sv)) as [c0|]; [|done].
      apply (destroyAll_service [c0]).
    + rewrite Hobjs. unfold sv1, unwatchOne. cbn [rtspService].
      destruct (JsMap.get k0 (activeStreams sv)) as [c0|]; [|done].
      apply (destroyAll_service [c0]).
Qed.

(** X22.  One 'stream:unwatch' event releases every watch of the socket,
    not only one: for each listener the socket has registered, the key of
    its closure is no longer in [activeStreams], the stream filed under it
    is destroyed (with what it had received untouched) and the session of
    its closure gets an idle check.  The registry and the session objects
    of the service are not touched. *)
Theorem unwatch_releases_every_watch_of_socket :
  ∀ (sv : Server) (socketId : string),
    (∀ key sessionId,
       (socketId, (key, sessionId)) ∈ unwatchListeners sv →
       JsMap.get key (activeStreams (onUnwatch socketId sv)) = None ∧
       sessionId ∈ idleChecks (onUnwatch socketId sv)) ∧
    (∀ key sessionId c q,
       (socketId, (key, sessionId)) ∈ unwatchListeners sv →
       JsMap.get key (activeStreams sv) = Some c →
       streams (rtspService sv) !! c = Some q →
       ∃ q', streams (rtspService (onUnwatch socketId sv)) !! c = Some q' ∧
             destroyed q' = true ∧ written q' = written q) ∧
    sessions (rtspService (onUnwatch socketId sv)) = sessions (rtspService sv) ∧
    objs (rtspService (onUnwatch socketId sv)) = objs (rtspService sv).
Proof.
  intros sv socketId. unfold onUnwatch.
  set (cl := (filter (λ l, l.1 = socketId) (unwatchListeners sv)).*2).
  assert (Hcl : ∀ key sessionId,
            (socketId, (key, sessionId)) ∈ unwatchListeners sv → (key, sessionId) ∈ cl).
  { intros key sessionId Hin. apply list_elem_of_fmap.
    exists (socketId, (key, sessionId)). split; [done|].
    by apply list_elem_of_filter. }
  destruct (unwatchAll_spec socketId cl sv)
    as (Hgone & _ & Hstr & Hdes & Hidle & Hsess & Hobjs).
  split_and!; try done.
  - intros key sessionId Hin%Hcl. split.
    + apply Hgone. apply list_elem_of_fmap. by exists (key, sessionId).
    + rewrite Hidle. apply elem_of_app. right.
      apply list_elem_of_fmap. by exists (key, sessionId).
  - intros key sessionId c q Hin%Hcl Hget Hq.
    destruct (Hdes key c q) as (q' & Hq' & Hd'); [|done|done|].
    { apply list_elem_of_fmap. by exists (key, sessionId). }
    destruct (Hstr c q Hq) as (q'' & Hq'' & Hw'' & _). simplify_eq. eauto.
Qed.
